(** * playwright/network.py: Request, Route, Response and the header codec

    A shallow embedding of [src/playwright/network.py].

    - Python [str] values are [string]s holding the UTF-8 encoding of the
      text, so [s.encode()] is the list of bytes of [s] and [b.decode()]
      is a validity check.  Python [bytes] are [list byte].
    - A Python [dict] is insertion ordered; [dict V] is an association
      list kept in insertion order with unique keys.
    - The channel to the remote driver is explicit state: the log of the
      messages sent so far, with the driver itself a function of the
      environment.
    - Objects that are mutated through references (Request) live in a
      heap indexed by locations. *)

From Stdlib Require Import Strings.String Strings.Ascii Strings.Byte List NArith ZArith Bool Lia.
From Stdlib Require Import DecimalString.
From stdpp Require Import base option gmap.
Import ListNotations.

Local Open Scope string_scope.
Local Open Scope list_scope.

(* ================================================================== *)
(** ** Python values *)

Definition bytes := list byte.

(** Exceptions the module can raise, by their Python class.  The spec's
    taxonomy: [ChannelError] is RemoteCallFailure, [JSONDecodeError] is
    ParseError.  [ProtocolViolation] is the spec's local guard error. *)
Inductive exn : Type :=
| KeyError (key : string)
| ValueError
| TypeError
| BinasciiError
| UnicodeDecodeError
| JSONDecodeError
| OSError
| ChannelError (message : string)
| ProtocolViolation.

Inductive result (A : Type) : Type :=
| Ok (a : A)
| Raise (e : exn).
Arguments Ok {A} a.
Arguments Raise {A} e.

Definition result_bind {A B} (r : result A) (k : A -> result B) : result B :=
  match r with
  | Ok a => k a
  | Raise e => Raise e
  end.

(** Truthiness of a [str]: [if s:] holds for a non-empty string. *)
Definition truthy_str (s : string) : bool :=
  match s with
  | EmptyString => false
  | String _ _ => true
  end.

(** [if o:] for an [Optional[str]]. *)
Definition truthy_opt_str (o : option string) : bool :=
  match o with
  | Some s => truthy_str s
  | None => false
  end.

(* ------------------------------------------------------------------ *)
(** *** Insertion-ordered dictionaries *)

Definition dict (V : Type) : Type := list (string * V).

Section Dict.
Context {V : Type}.

(** [d.get(k)] *)
Fixpoint dict_get (k : string) (d : dict V) : option V :=
  match d with
  | [] => None
  | (k', v) :: d' => if String.eqb k' k then Some v else dict_get k d'
  end.

(** [k in d] *)
Definition dict_contains (k : string) (d : dict V) : bool :=
  match dict_get k d with
  | Some _ => true
  | None => false
  end.

(** [d[k]]: KeyError when the key is missing. *)
Definition dict_getitem (k : string) (d : dict V) : result V :=
  match dict_get k d with
  | Some v => Ok v
  | None => Raise (KeyError k)
  end.

(** [d[k] = v]: an existing key keeps its position, a new key goes last. *)
Fixpoint dict_set (k : string) (v : V) (d : dict V) : dict V :=
  match d with
  | [] => [(k, v)]
  | (k', v') :: d' =>
      if String.eqb k' k then (k', v) :: d' else (k', v') :: dict_set k v d'
  end.

Definition dict_keys (d : dict V) : list string := map fst d.

(** [if d:] *)
Definition truthy_dict (d : dict V) : bool :=
  match d with
  | [] => false
  | _ :: _ => true
  end.
End Dict.

(* ================================================================== *)
(** ** Header codec *)

(** [Header] is the TypedDict [{"name": str, "value": str}]. *)
Record Header : Type := { name : string; value : string }.

(** [[{"name": name, "value": value} for name, value in headers.items()]] *)
Definition serialize_headers (headers : dict string) : list Header :=
  map (fun '(n, v) => {| name := n; value := v |}) headers.

(** [{header["name"]: header["value"] for header in headers}] *)
Definition parse_headers (headers : list Header) : dict string :=
  fold_left (fun d header => dict_set (name header) (value header) d) headers [].

(* ================================================================== *)
(** ** Text and binary encodings *)

(** [s.encode()]: the UTF-8 bytes of a [str].  A [str] that Python cannot
    encode (one holding a lone surrogate) is not a well-formed string
    here; what is stated about sending a text asks for [encodable]
    below. *)
Definition encode (s : string) : bytes := list_byte_of_string s.

Definition in_range (lo hi b : N) : bool := ((lo <=? b) && (b <=? hi))%N.

(** Well-formed UTF-8 byte sequences (no overlong forms, no surrogates,
    nothing above U+10FFFF), as the strict decoder accepts them. *)
Fixpoint utf8_valid (b : list N) : bool :=
  match b with
  | [] => true
  | b0 :: t =>
      if in_range 0x00 0x7F b0 then utf8_valid t
      else if in_range 0xC2 0xDF b0 then
        match t with
        | b1 :: t1 => in_range 0x80 0xBF b1 && utf8_valid t1
        | _ => false
        end
      else if in_range 0xE0 0xEF b0 then
        match t with
        | b1 :: b2 :: t2 =>
            (if (b0 =? 0xE0)%N then in_range 0xA0 0xBF b1
             else if (b0 =? 0xED)%N then in_range 0x80 0x9F b1
             else in_range 0x80 0xBF b1)
            && in_range 0x80 0xBF b2 && utf8_valid t2
        | _ => false
        end
      else if in_range 0xF0 0xF4 b0 then
        match t with
        | b1 :: b2 :: b3 :: t3 =>
            (if (b0 =? 0xF0)%N then in_range 0x90 0xBF b1
             else if (b0 =? 0xF4)%N then in_range 0x80 0x8F b1
             else in_range 0x80 0xBF b1)
            && in_range 0x80 0xBF b2 && in_range 0x80 0xBF b3 && utf8_valid t3
        | _ => false
        end
      else false
  end.

(** [b.decode()]: strict UTF-8. *)
Definition decode (b : bytes) : result string :=
  if utf8_valid (map Byte.to_N b) then Ok (string_of_list_byte b)
  else Raise UnicodeDecodeError.

(** [str(n)] for a non-negative [int]. *)
Definition str_of_nat (n : nat) : string :=
  NilZero.string_of_uint (Nat.to_uint n).

Definition b64_alphabet : string :=
  "ABCDEFGHIJKLMNOPQRSTUVWXYZabcdefghijklmnopqrstuvwxyz0123456789+/".

Definition b64_char (n : N) : ascii :=
  match String.get (N.to_nat n) b64_alphabet with
  | Some c => c
  | None => "="%char
  end.

(** [base64.b64encode(b).decode()]: the output is ASCII, so the decode
    cannot fail and the result is taken as a [str] at once. *)
Fixpoint b64encode (b : bytes) : string :=
  match b with
  | [] => ""
  | [x] =>
      let x := Byte.to_N x in
      String (b64_char (N.shiftr x 2))
        (String (b64_char (N.shiftl (N.land x 3) 4)) "==")
  | [x; y] =>
      let x := Byte.to_N x in
      let y := Byte.to_N y in
      String (b64_char (N.shiftr x 2))
        (String (b64_char (N.lor (N.shiftl (N.land x 3) 4) (N.shiftr y 4)))
           (String (b64_char (N.shiftl (N.land y 15) 2)) "="))
  | x :: y :: z :: rest =>
      let x := Byte.to_N x in
      let y := Byte.to_N y in
      let z := Byte.to_N z in
      String (b64_char (N.shiftr x 2))
        (String (b64_char (N.lor (N.shiftl (N.land x 3) 4) (N.shiftr y 4)))
           (String (b64_char (N.lor (N.shiftl (N.land y 15) 2) (N.shiftr z 6)))
              (String (b64_char (N.land z 63)) (b64encode rest))))
  end.

(** The decoding table of [binascii]: the value of an alphabet character. *)
Definition b64_value (c : ascii) : option N :=
  let n := N_of_ascii c in
  if in_range 65 90 n then Some (n - 65)%N
  else if in_range 97 122 n then Some (n - 97 + 26)%N
  else if in_range 48 57 n then Some (n - 48 + 52)%N
  else if (n =? 43)%N then Some 62%N
  else if (n =? 47)%N then Some 63%N
  else None.

Definition BASE64_PAD : ascii := "="%char.

(** [binascii_find_valid(s, slen, 1)] called at a pad character: the pad
    itself is the first valid character, so the answer is the first
    alphabet or pad character after it. *)
Fixpoint find_valid (s : list ascii) : option ascii :=
  match s with
  | [] => None
  | c :: rest =>
      if (N_of_ascii c <=? 0x7f)%N
         && (Ascii.eqb c BASE64_PAD || match b64_value c with Some _ => true | None => false end)
      then Some c
      else find_valid rest
  end.

(** The loop of [binascii.a2b_base64] (non-strict): characters outside
    the alphabet are skipped, a pad sequence in a legal position ends the
    input, and left-over bits at the end are an error. *)
Fixpoint a2b_base64_loop (s : list ascii) (quad_pos leftchar leftbits : N)
    (out : list byte) : result bytes :=
  match s with
  | [] => if (leftbits =? 0)%N then Ok (rev out) else Raise BinasciiError
  | this_ch :: rest =>
      let n := N_of_ascii this_ch in
      if (0x7f <? n)%N || (n =? 13)%N || (n =? 10)%N || (n =? 32)%N
      then a2b_base64_loop rest quad_pos leftchar leftbits out
      else if Ascii.eqb this_ch BASE64_PAD then
        if (quad_pos <? 2)%N
           || ((quad_pos =? 2)%N
               && negb (match find_valid rest with
                        | Some c => Ascii.eqb c BASE64_PAD
                        | None => false
                        end))
        then a2b_base64_loop rest quad_pos leftchar leftbits out
        else Ok (rev out)
      else
        match b64_value this_ch with
        | None => a2b_base64_loop rest quad_pos leftchar leftbits out
        | Some v =>
            let quad_pos := N.land (quad_pos + 1) 3 in
            let leftchar := N.lor (N.shiftl leftchar 6) v in
            let leftbits := (leftbits + 6)%N in
            if (8 <=? leftbits)%N then
              let leftbits := (leftbits - 8)%N in
              let b := N.land (N.shiftr leftchar leftbits) 0xff in
              let leftchar := N.land leftchar (N.shiftl 1 leftbits - 1) in
              a2b_base64_loop rest quad_pos leftchar leftbits
                (match Byte.of_N b with Some x => x | None => x00 end :: out)
            else a2b_base64_loop rest quad_pos leftchar leftbits out
        end
  end.

(** [base64.b64decode(s)] for a [str] argument: the text is first encoded
    as ASCII (ValueError otherwise), then handed to [binascii]. *)
Definition b64decode (s : string) : result bytes :=
  let cs := list_ascii_of_string s in
  if forallb (fun c => (N_of_ascii c <=? 0x7f)%N) cs
  then a2b_base64_loop cs 0 0 0 []
  else Raise ValueError.

(* ================================================================== *)
(** ** Wire data *)

(** Values [json.loads] produces. *)
#[local] Unset Elimination Schemes.
Inductive JSON : Type :=
| JNull
| JBool (b : bool)
| JNumber (literal : string)
| JString (s : string)
| JArray (items : list JSON)
| JObject (members : list (string * JSON)).
#[local] Set Elimination Schemes.

(** The [path] argument of [fulfill] is [Union[str, Path]]: a [str] is
    truthy when non-empty, a [Path] object always. *)
Inductive PathArg : Type :=
| PathStr (s : string)
| PathObj (s : string).

(** Payload of a remote call, per operation.  A key that may be missing
    from the payload dictionary is an [option]: [locals_to_params] of
    [playwright/helper.py] copies the arguments that are not [None], and
    [continue_] adds only the overrides it is given. *)
Record FulfillParams : Type := {
  p_status : option Z;
  p_headers : list Header;
  p_body : option string;
  p_isBase64 : option bool;
  p_path : option PathArg;
  p_contentType : option string
}.

Record ContinueParameters : Type := {
  o_method : option string;
  o_headers : option (list Header);
  o_postData : option string
}.

Inductive Params : Type :=
| NoParams
| AbortParams (errorCode : option string)
| FulfillParamsOf (p : FulfillParams)
| ContinueParamsOf (overrides : ContinueParameters).

Record Message : Type := {
  msg_guid : string;
  msg_method : string;
  msg_params : Params
}.

Inductive wire_value : Type :=
| WNone
| WStr (s : string)
| WRef (guid : string).

Inductive Reply : Type :=
| ReplyResult (v : wire_value)
| ReplyError (message : string).

(* ------------------------------------------------------------------ *)
(** *** Calls over the channel *)

(** A computation that may send messages and may raise: the state is the
    log of messages sent so far, oldest first. *)
Definition M (A : Type) : Type := list Message -> result A * list Message.

Definition ret {A} (a : A) : M A := fun log => (Ok a, log).

Definition raise {A} (e : exn) : M A := fun log => (Raise e, log).

Definition bind {A B} (c : M A) (k : A -> M B) : M B :=
  fun log =>
    match c log with
    | (Ok a, log') => k a log'
    | (Raise e, log') => (Raise e, log')
    end.

Definition lift {A} (r : result A) : M A := fun log => (r, log).

Declare Scope chan_scope.
Delimit Scope chan_scope with chan.
Notation "x <- c ;; k" := (bind c (fun x => k))
  (at level 100, c at next level, right associativity) : chan_scope.
Notation "c ;; k" := (bind c (fun _ => k))
  (at level 100, right associativity) : chan_scope.
Notation "'try' x := r 'in' k" := (result_bind r (fun x => k))
  (at level 100, x name, r at next level, right associativity).

Section Channel.
(** The remote driver: it answers a message knowing the messages it
    received before. *)
Variable remote : list Message -> Message -> Reply.

(** Modelled from the spec: [Channel.send] of [playwright/connection.py],
    which is not part of this module.  One call is a single
    request/response exchange (spec section 5); a failure reported by
    the remote side is surfaced to the caller (spec section 7). *)
Definition Channel_send (guid method : string) (params : Params) : M wire_value :=
  fun log =>
    let m := {| msg_guid := guid; msg_method := method; msg_params := params |} in
    (match remote log m with
     | ReplyResult v => Ok v
     | ReplyError e => Raise (ChannelError e)
     end, log ++ [m]).
End Channel.

(** Object identities: a heap location. *)
Definition loc : Type := positive.

(** Modelled from the spec: [from_nullable_channel] of
    [playwright/connection.py], which is not part of this module.  It
    maps an optional channel reference to the object behind it; with
    objects named by their location it keeps the reference as it is. *)
Definition from_nullable_channel (channel : option loc) : option loc := channel.

(* ================================================================== *)
(** ** class Request *)

Record RequestFailure : Type := { errorText : string }.

Module Request.

Record Initializer : Type := {
  init_url : string;
  init_resourceType : string;
  init_method : string;
  init_postData : option string;
  init_headers : list Header;
  init_isNavigationRequest : bool;
  init_redirectedFrom : option loc
}.

Record t : Type := {
  _guid : string;
  _initializer : Initializer;
  _redirected_from : option loc;
  _redirected_to : option loc;
  _failure_text : option string
}.

(** [obj._redirected_to = v] *)
Definition set_redirected_to (v : option loc) (obj : t) : t :=
  {| _guid := _guid obj;
     _initializer := _initializer obj;
     _redirected_from := _redirected_from obj;
     _redirected_to := v;
     _failure_text := _failure_text obj |}.

(** [Request.__init__]: the new object gets a fresh identity; when the
    initializer names a predecessor, the predecessor object is updated
    in place. *)
Definition __init__ (guid : string) (initializer : Initializer)
    (heap : gmap loc t) : loc * gmap loc t :=
  let self := fresh (dom heap) in
  let redirected_from := from_nullable_channel (init_redirectedFrom initializer) in
  let heap :=
    <[self := {| _guid := guid;
                 _initializer := initializer;
                 _redirected_from := redirected_from;
                 _redirected_to := None;
                 _failure_text := None |}]> heap in
  let heap :=
    match redirected_from with
    | Some pred => alter (set_redirected_to (Some self)) pred heap
    | None => heap
    end in
  (self, heap).

Definition url (self : t) : string := init_url (_initializer self).
Definition resourceType (self : t) : string := init_resourceType (_initializer self).
Definition method (self : t) : string := init_method (_initializer self).
Definition isNavigationRequest (self : t) : bool :=
  init_isNavigationRequest (_initializer self).
Definition redirectedFrom (self : t) : option loc := _redirected_from self.
Definition redirectedTo (self : t) : option loc := _redirected_to self.

Definition headers (self : t) : dict string :=
  parse_headers (init_headers (_initializer self)).

Definition postDataBuffer (self : t) : result (option bytes) :=
  let b64_content := init_postData (_initializer self) in
  if negb (truthy_opt_str b64_content) then Ok None
  else
    match b64_content with
    | Some s => try b := b64decode s in Ok (Some b)
    | None => Ok None
    end.

Definition postData (self : t) : result (option string) :=
  try data := postDataBuffer self in
  match data with
  | None => Ok None
  | Some [] => Ok None
  | Some ((_ :: _) as data) => try s := decode data in Ok (Some s)
  end.

Definition failure (self : t) : option RequestFailure :=
  if truthy_opt_str (_failure_text self)
  then option_map (fun s => {| errorText := s |}) (_failure_text self)
  else None.

Section Parsers.
Variable json_loads : string -> option JSON.            (* [json.loads], [None] on JSONDecodeError *)
Variable parse_qsl : string -> list (string * string).  (* [urllib.parse.parse_qsl] *)

(** [dict(pairs)] as a JSON object of strings. *)
Definition dict_of_pairs (pairs : list (string * string)) : JSON :=
  JObject (fold_left (fun d '(k, v) => dict_set k (JString v) d) pairs []).

(** [json.loads] gives [None] for the text [null]; that is the absent
    result again. *)
Definition postDataJSON (self : t) : result (option JSON) :=
  try post_data := postData self in
  match post_data with
  | None => Ok None
  | Some post_data =>
      if negb (truthy_str post_data) then Ok None
      else
        try content_type := dict_getitem "content-type" (headers self) in
        if negb (truthy_str content_type) then Ok None
        else if String.eqb content_type "application/x-www-form-urlencoded"
        then Ok (Some (dict_of_pairs (parse_qsl post_data)))
        else
          match json_loads post_data with
          | Some JNull => Ok None
          | Some j => Ok (Some j)
          | None => Raise JSONDecodeError
          end
  end.
End Parsers.

End Request.

(* ================================================================== *)
(** ** class Route *)

(** The [body] argument of [fulfill] and the [postData] argument of
    [continue_] are [Union[str, bytes]]. *)
Inductive Body : Type :=
| BodyStr (s : string)
| BodyBytes (b : bytes).

(** [if path:] *)
Definition truthy_path (path : option PathArg) : bool :=
  match path with
  | Some (PathStr s) => truthy_str s
  | Some (PathObj _) => true
  | None => false
  end.

Module Route.

Record t : Type := {
  _guid : string;
  init_request : loc
}.

Definition request (self : t) : loc := init_request self.

Section Actions.
Variable str_lower : string -> string.              (* [str.lower] *)
Variable guess_type : PathArg -> option string.     (* [mimetypes.guess_type(str(Path(path)))[0]] *)
Variable read_bytes : PathArg -> option bytes.      (* [Path(path).read_bytes()], [None] when the read fails *)
Variable remote : list Message -> Message -> Reply.

Definition abort (self : t) (errorCode : option string) : M unit :=
  (_ <- Channel_send remote (_guid self) "abort" (AbortParams errorCode) ;;
   ret tt)%chan.

(** The first [if]/[elif] chain of [fulfill]: the [body] and
    [isBase64] entries of [params], whether [path] stays in
    [params], and [length]. *)
Definition fulfill_body (body : option Body) (path : option PathArg)
  : result (option string * option bool * option PathArg * nat) :=
  match body with
  | Some (BodyStr body) =>
      Ok (Some body, Some false, path, length (encode body))
  | Some (BodyBytes body) =>
      Ok (Some (b64encode body), Some true, path, length body)
  | None =>
      match path with
      | Some p =>
          if truthy_path path then
            match read_bytes p with
            | Some file_content =>
                Ok (Some (b64encode file_content), Some true, None, length file_content)
            | None => Raise OSError
            end
          else Ok (None, None, path, 0)
      | None => Ok (None, None, path, 0)
      end
  end.

(** [{k.lower(): str(v) for k, v in params.get("headers", {}).items()}];
    the values are [str] already, so [str(v)] is [v]. *)
Definition lower_headers (headers : option (dict string)) : dict string :=
  fold_left (fun d '(k, v) => dict_set (str_lower k) v d)
    (match headers with Some h => h | None => [] end) [].

(** [guess or "application/octet-stream"] *)
Definition guess_or_default (guess : option string) : string :=
  if truthy_opt_str guess
  then match guess with Some g => g | None => "" end
  else "application/octet-stream".

(** The [headers] dictionary [fulfill] builds before serializing it. *)
Definition fulfill_headers (headers : option (dict string))
    (path : option PathArg) (contentType : option string) (length : nat)
  : dict string :=
  let headers := lower_headers headers in
  let headers :=
    if truthy_opt_str contentType then
      match contentType with
      | Some ct => dict_set "content-type" ct headers
      | None => headers
      end
    else if truthy_path path then
      match path with
      | Some p => dict_set "content-type" (guess_or_default (guess_type p)) headers
      | None => headers
      end
    else headers in
  if negb (Nat.eqb length 0) && negb (dict_contains "content-length" headers)
  then dict_set "content-length" (str_of_nat length) headers
  else headers.

(** The payload [fulfill] sends (all of the method but its last line). *)
Definition fulfill_params (status : option Z) (headers : option (dict string))
    (body : option Body) (path : option PathArg) (contentType : option string)
  : result FulfillParams :=
  try r := fulfill_body body path in
  let '(p_body, p_isBase64, p_path, length) := r in
  Ok {| p_status := status;
        p_headers := serialize_headers (fulfill_headers headers path contentType length);
        p_body := p_body;
        p_isBase64 := p_isBase64;
        p_path := p_path;
        p_contentType := contentType |}.

Definition fulfill (self : t) (status : option Z) (headers : option (dict string))
    (body : option Body) (path : option PathArg) (contentType : option string)
  : M unit :=
  (params <- lift (fulfill_params status headers body path contentType) ;;
   _ <- Channel_send remote (_guid self) "fulfill" (FulfillParamsOf params) ;;
   ret tt)%chan.

Definition continue_ (self : t) (method : option string)
    (headers : option (dict string)) (postData : option Body) : M unit :=
  let overrides :=
    {| o_method := if truthy_opt_str method then method else None;
       o_headers :=
         match headers with
         | Some h => if truthy_dict h then Some (serialize_headers h) else None
         | None => None
         end;
       o_postData :=
         match postData with
         | Some (BodyStr postData) => Some (b64encode (encode postData))
         | Some (BodyBytes postData) => Some (b64encode postData)
         | None => None
         end |} in
  (_ <- Channel_send remote (_guid self) "continue" (ContinueParamsOf overrides) ;;
   ret tt)%chan.
End Actions.

End Route.

(* ================================================================== *)
(** ** class Response *)

Module Response.

Record Initializer : Type := {
  init_url : string;
  init_status : Z;
  init_statusText : string;
  init_headers : list Header;
  init_request : loc
}.

Record t : Type := {
  _guid : string;
  _initializer : Initializer
}.

Definition url (self : t) : string := init_url (_initializer self).
Definition status (self : t) : Z := init_status (_initializer self).
Definition statusText (self : t) : string := init_statusText (_initializer self).
Definition request (self : t) : loc := init_request (_initializer self).

Definition ok (self : t) : bool :=
  (init_status (_initializer self) =? 0)%Z
  || ((200 <=? init_status (_initializer self))%Z
      && (init_status (_initializer self) <=? 299)%Z).

Definition headers (self : t) : dict string :=
  parse_headers (init_headers (_initializer self)).

Section Calls.
Variable json_loads : string -> option JSON.
Variable remote : list Message -> Message -> Reply.

Definition body (self : t) : M bytes :=
  (binary <- Channel_send remote (_guid self) "body" NoParams ;;
   match binary with
   | WStr binary => lift (b64decode binary)
   | _ => raise TypeError
   end)%chan.

Definition text (self : t) : M string :=
  (content <- body self ;; lift (decode content))%chan.

Definition json (self : t) : M JSON :=
  (t <- text self ;;
   match json_loads t with
   | Some j => ret j
   | None => raise JSONDecodeError
   end)%chan.
End Calls.

End Response.

(* ================================================================== *)
(** ** A concrete environment for the examples *)

(** [str.lower] on ASCII text. *)
Definition ascii_lower_char (c : ascii) : ascii :=
  let n := N_of_ascii c in
  if in_range 65 90 n then ascii_of_N (n + 32) else c.

Fixpoint ascii_lower (s : string) : string :=
  match s with
  | EmptyString => EmptyString
  | String c s' => String (ascii_lower_char c) (ascii_lower s')
  end.

Definition path_text (p : PathArg) : string :=
  match p with
  | PathStr s => s
  | PathObj s => s
  end.

Fixpoint ends_with (suffix s : string) : bool :=
  String.eqb s suffix
  || match s with
     | EmptyString => false
     | String _ s' => ends_with suffix s'
     end.

(** A type table that knows one extension. *)
Definition guess_png (p : PathArg) : option string :=
  if ends_with ".png" (path_text p) then Some "image/png" else None.

(** A file system holding two files. *)
Definition two_files (p : PathArg) : option bytes :=
  if String.eqb (path_text p) "icon.png" then Some [x89; "P"; "N"; "G"]%byte
  else if String.eqb (path_text p) "data.xyz" then Some ["h"; "i"]%byte
  else None.

Definition is_disposition (m : Message) : bool :=
  String.eqb (msg_method m) "abort"
  || String.eqb (msg_method m) "fulfill"
  || String.eqb (msg_method m) "continue".

(** A driver that handles a route once and rejects any later action on
    it, and that serves one fixed body. *)
Definition one_shot_driver (log : list Message) (m : Message) : Reply :=
  if is_disposition m then
    if existsb (fun m' => is_disposition m' && String.eqb (msg_guid m') (msg_guid m)) log
    then ReplyError "Route is already handled!"
    else ReplyResult WNone
  else if String.eqb (msg_method m) "body" then ReplyResult (WStr "aGVsbG8=")
  else ReplyResult WNone.

Definition sample_initializer (pred : option loc) : Request.Initializer :=
  {| Request.init_url := "http://example.com/";
     Request.init_resourceType := "document";
     Request.init_method := "GET";
     Request.init_postData := None;
     Request.init_headers := [];
     Request.init_isNavigationRequest := true;
     Request.init_redirectedFrom := pred |}.

Definition sample_request (postData : option string) (headers : list Header)
  : Request.t :=
  {| Request._guid := "request@1";
     Request._initializer :=
       {| Request.init_url := "http://example.com/";
          Request.init_resourceType := "fetch";
          Request.init_method := "POST";
          Request.init_postData := postData;
          Request.init_headers := headers;
          Request.init_isNavigationRequest := false;
          Request.init_redirectedFrom := None |};
     Request._redirected_from := None;
     Request._redirected_to := None;
     Request._failure_text := None |}.

Definition sample_route : Route.t :=
  {| Route._guid := "route@1"; Route.init_request := 1%positive |}.

Definition sample_response : Response.t :=
  {| Response._guid := "response@1";
     Response._initializer :=
       {| Response.init_url := "http://example.com/";
          Response.init_status := 200;
          Response.init_statusText := "OK";
          Response.init_headers := [];
          Response.init_request := 1%positive |} |}.

(* ================================================================== *)
(** ** Disposition actions as data *)

(** One call of a disposition method with its arguments, so that a
    property can speak of any of the three. *)
Inductive Action : Type :=
| Abort (errorCode : option string)
| Fulfill (status : option Z) (headers : option (dict string)) (body : option Body)
    (path : option PathArg) (contentType : option string)
| Continue (method : option string) (headers : option (dict string))
    (postData : option Body).

(** The operation name an action uses on the wire. *)
Definition wire_name (a : Action) : string :=
  match a with
  | Abort _ => "abort"
  | Fulfill _ _ _ _ _ => "fulfill"
  | Continue _ _ _ => "continue"
  end.

Section Perform.
Variable str_lower : string -> string.
Variable guess_type : PathArg -> option string.
Variable read_bytes : PathArg -> option bytes.
Variable remote : list Message -> Message -> Reply.

Definition perform (self : Route.t) (a : Action) : M unit :=
  match a with
  | Abort errorCode => Route.abort remote self errorCode
  | Fulfill status headers body path contentType =>
      Route.fulfill str_lower guess_type read_bytes remote self
        status headers body path contentType
  | Continue method headers postData =>
      Route.continue_ remote self method headers postData
  end.
End Perform.

(** The header names a caller passes in an optional [headers] argument. *)
Definition supplied (headers : option (dict string)) : list string :=
  dict_keys (match headers with Some h => h | None => [] end).

(** The value of the first entry of a wire header list with the given
    name (compared exactly). *)
Definition wire_header (k : string) (headers : list Header) : option string :=
  option_map value (find (fun h => String.eqb (name h) k) headers).

(** A text that [str.encode()] accepts: its bytes are well-formed UTF-8. *)
Definition encodable (s : string) : bool :=
  utf8_valid (map Byte.to_N (encode s)).

(** The text an action encodes before it sends ([body] of [fulfill],
    [postData] of [continue_]) is encodable, or there is none. *)
Definition text_encodable (a : Action) : bool :=
  match a with
  | Fulfill _ _ (Some (BodyStr s)) _ _ => encodable s
  | Continue _ _ (Some (BodyStr s)) => encodable s
  | _ => true
  end.

Section Unreadable.
Variable read_bytes : PathArg -> option bytes.

(** The action is a [fulfill] without [body] and with a truthy [path]
    whose file cannot be read. *)
Definition unreadable (a : Action) : bool :=
  match a with
  | Fulfill _ _ None (Some f) _ =>
      truthy_path (Some f)
      && match read_bytes f with Some _ => false | None => true end
  | _ => false
  end.
End Unreadable.

(** What the caller of a disposition method gets for a reply. *)
Definition outcome_of_reply (r : Reply) : result unit :=
  match r with
  | ReplyResult _ => Ok tt
  | ReplyError e => Raise (ChannelError e)
  end.

(** The message [Response.body] sends. *)
Definition body_message (self : Response.t) : Message :=
  {| msg_guid := Response._guid self; msg_method := "body"; msg_params := NoParams |}.

(** What the caller of [Response.body] gets for a reply. *)
Definition body_of_reply (r : Reply) : result bytes :=
  match r with
  | ReplyResult (WStr binary) => b64decode binary
  | ReplyResult _ => Raise TypeError
  | ReplyError e => Raise (ChannelError e)
  end.

(* ================================================================== *)
(** ** Redirect links in a heap of requests *)

(** An initializer whose [redirectedFrom] entry is [pred]. *)
Definition initializer_from (pred : option loc) (i : Request.Initializer)
  : Request.Initializer :=
  {| Request.init_url := Request.init_url i;
     Request.init_resourceType := Request.init_resourceType i;
     Request.init_method := Request.init_method i;
     Request.init_postData := Request.init_postData i;
     Request.init_headers := Request.init_headers i;
     Request.init_isNavigationRequest := Request.init_isNavigationRequest i;
     Request.init_redirectedFrom := pred |}.

(** Every [redirectedFrom] reference points to an object of the heap, and
    every [redirectedTo] link is answered by the [redirectedFrom] of the
    object it points to. *)
Definition redirect_links_ok (heap : gmap loc Request.t) : Prop :=
  forall l r, heap !! l = Some r ->
    (forall a, Request.redirectedFrom r = Some a -> is_Some (heap !! a))
    /\ (forall b, Request.redirectedTo r = Some b ->
          exists rb, heap !! b = Some rb /\ Request.redirectedFrom rb = Some l).

(* ================================================================== *)
(** ** Facts about dictionaries *)

Section DictFacts.
Context {V : Type}.
Implicit Types (d : dict V) (k : string) (v : V).

Lemma dict_get_set_eq k v d : dict_get k (dict_set k v d) = Some v.
Proof.
  induction d as [|[k' v'] d IH]; simpl.
  - now rewrite String.eqb_refl.
  - destruct (String.eqb k' k) eqn:E; simpl; rewrite E; auto.
Qed.

Lemma dict_get_set_ne k k' v d :
  k <> k' -> dict_get k' (dict_set k v d) = dict_get k' d.
Proof.
  intros Hne. induction d as [|[k0 v0] d IH]; simpl.
  - apply String.eqb_neq in Hne. now rewrite Hne.
  - destruct (String.eqb k0 k) eqn:E; simpl.
    + apply String.eqb_eq in E. subst k0.
      apply String.eqb_neq in Hne. now rewrite Hne.
    + destruct (String.eqb k0 k'); auto.
Qed.

Lemma dict_get_None_notin k d :
  dict_get k d = None <-> ~ In k (dict_keys d).
Proof.
  induction d as [|[k' v'] d IH]; simpl.
  - tauto.
  - destruct (String.eqb k' k) eqn:E.
    + apply String.eqb_eq in E. split; [discriminate | tauto].
    + apply String.eqb_neq in E. rewrite IH. tauto.
Qed.

Lemma dict_set_fresh k v d :
  ~ In k (dict_keys d) -> dict_set k v d = d ++ [(k, v)].
Proof.
  induction d as [|[k' v'] d IH]; simpl; intros Hn; [reflexivity|].
  destruct (String.eqb k' k) eqn:E.
  - apply String.eqb_eq in E. tauto.
  - f_equal. apply IH. tauto.
Qed.

Lemma dict_keys_set k v d :
  dict_keys (dict_set k v d) =
  if dict_contains k d then dict_keys d else dict_keys d ++ [k].
Proof.
  unfold dict_contains.
  induction d as [|[k' v'] d IH]; simpl; [reflexivity|].
  destruct (String.eqb k' k) eqn:E; simpl; [reflexivity|].
  rewrite IH. now destruct (dict_get k d).
Qed.

Lemma dict_set_NoDup k v d :
  NoDup (dict_keys d) -> NoDup (dict_keys (dict_set k v d)).
Proof.
  intros Hd. rewrite dict_keys_set. unfold dict_contains.
  destruct (dict_get k d) eqn:E; [assumption|].
  apply dict_get_None_notin in E.
  apply NoDup_app; repeat split; auto.
  - intros x Hx Hk. apply list_elem_of_In in Hx, Hk.
    destruct Hk as [<-|[]]. tauto.
  - apply NoDup_singleton.
Qed.
End DictFacts.


(* ================================================================== *)
(** ** Header codec: round trip and duplicate collapse *)

Lemma parse_headers_snoc (l : list Header) (h : Header) :
  parse_headers (l ++ [h]) = dict_set (name h) (value h) (parse_headers l).
Proof. unfold parse_headers. now rewrite fold_left_app. Qed.

Lemma serialize_headers_snoc (d : dict string) (k v : string) :
  serialize_headers (d ++ [(k, v)]) = serialize_headers d ++ [{| name := k; value := v |}].
Proof. unfold serialize_headers. now rewrite map_app. Qed.

Lemma serialize_headers_names (d : dict string) :
  map name (serialize_headers d) = dict_keys d.
Proof.
  unfold serialize_headers, dict_keys. rewrite map_map.
  apply map_ext. now intros [k v].
Qed.

Lemma serialize_headers_entries (d : dict string) :
  map (fun h => (name h, value h)) (serialize_headers d) = d.
Proof.
  unfold serialize_headers. rewrite map_map.
  rewrite <- (map_id d) at 2. apply map_ext. now intros [k v].
Qed.

Lemma NoDup_keys_snoc {V} (d : dict V) (k : string) (v : V) :
  NoDup (dict_keys (d ++ [(k, v)])) -> NoDup (dict_keys d) /\ ~ In k (dict_keys d).
Proof.
  unfold dict_keys. rewrite map_app. simpl. intros H.
  apply NoDup_app in H as (Hd & Hx & _). split; [assumption|].
  intros Hin. apply (Hx k).
  - now apply list_elem_of_In.
  - apply list_elem_of_In. now left.
Qed.

Lemma parse_serialize (d : dict string) :
  NoDup (dict_keys d) -> parse_headers (serialize_headers d) = d.
Proof.
  induction d as [|[k v] d IH] using rev_ind; intros Hnd; [reflexivity|].
  apply NoDup_keys_snoc in Hnd as [Hd Hk].
  rewrite serialize_headers_snoc, parse_headers_snoc. simpl.
  rewrite (IH Hd). now apply dict_set_fresh.
Qed.

(** C8: for a header mapping [M] with unique keys,
    [parse_headers (serialize_headers M)] is [M] again, and
    [serialize_headers M] has one [{name, value}] entry per entry of [M],
    in the insertion order of [M]. *)
Theorem parse_serialize_roundtrip (M : dict string) :
  NoDup (dict_keys M) ->
  parse_headers (serialize_headers M) = M
  /\ map (fun h => (name h, value h)) (serialize_headers M) = M
  /\ length (serialize_headers M) = length M.
Proof.
  intros Hnd. split; [now apply parse_serialize|].
  split; [apply serialize_headers_entries|].
  unfold serialize_headers. apply length_map.
Qed.

Lemma parse_serialize_roundtrip_witness :
  let M := [("b", "1"); ("a", "2"); ("B", "3")] in
  parse_headers (serialize_headers M) = M
  /\ map (fun h => (name h, value h)) (serialize_headers M) = M
  /\ length (serialize_headers M) = length M.
Proof.
  apply (parse_serialize_roundtrip [("b", "1"); ("a", "2"); ("B", "3")]).
  unfold dict_keys; simpl.
  repeat (apply NoDup_cons_2; [rewrite list_elem_of_In; simpl; intuition discriminate|]).
  apply NoDup_nil_2.
Defined.

(** C9: [parse_headers] folds the wire list left to right, so among the
    entries that carry exactly the same name the last one gives the
    value; in particular [parse [("A","1"); ("A","2")]] is [{"A": "2"}]. *)
Theorem parse_headers_last_wins (l1 l2 : list Header) (h : Header) :
  (forall h', In h' l2 -> name h' <> name h) ->
  dict_get (name h) (parse_headers (l1 ++ h :: l2)) = Some (value h)
  /\ parse_headers [{| name := "A"; value := "1" |}; {| name := "A"; value := "2" |}]
     = [("A", "2")].
Proof.
  intros Hl2. split; [|reflexivity].
  induction l2 as [|x l2 IH] using rev_ind.
  - rewrite parse_headers_snoc. apply dict_get_set_eq.
  - replace (l1 ++ h :: l2 ++ [x]) with ((l1 ++ h :: l2) ++ [x])
      by (rewrite <- app_assoc; reflexivity).
    rewrite parse_headers_snoc, dict_get_set_ne.
    + apply IH. intros h' Hin. apply Hl2, in_or_app. now left.
    + apply Hl2, in_or_app. right. now left.
Qed.

Lemma parse_headers_last_wins_witness :
  dict_get "A"
    (parse_headers ([{| name := "A"; value := "1" |}; {| name := "b"; value := "x" |}]
                    ++ {| name := "A"; value := "2" |} :: [{| name := "a"; value := "3" |}]))
  = Some "2"
  /\ parse_headers [{| name := "A"; value := "1" |}; {| name := "A"; value := "2" |}]
     = [("A", "2")].
Proof.
  apply (parse_headers_last_wins
           [{| name := "A"; value := "1" |}; {| name := "b"; value := "x" |}]
           [{| name := "a"; value := "3" |}]
           {| name := "A"; value := "2" |}).
  simpl. intros h' [<-|[]]. simpl. discriminate.
Defined.

(* ================================================================== *)
(** ** Request: the redirect chain *)

Lemma Request_init_fresh (guid : string) (initializer : Request.Initializer)
    (heap : gmap loc Request.t) :
  heap !! fst (Request.__init__ guid initializer heap) = None.
Proof.
  unfold Request.__init__. simpl.
  apply not_elem_of_dom. apply is_fresh.
Qed.

(** C7: constructing a Request [B] whose initializer names a predecessor
    [A] leaves [B.redirectedFrom = A] and [A.redirectedTo = B], with
    every other field of [A] (its [redirectedFrom] among them) and every
    other object as before; a Request constructed without a predecessor
    has neither [redirectedFrom] nor [redirectedTo]. *)
Theorem redirect_chain_consistency (guid : string)
    (initializer : Request.Initializer) (heap : gmap loc Request.t) :
  (forall a, Request.init_redirectedFrom initializer = Some a -> is_Some (heap !! a)) ->
  exists b heap' B,
    Request.__init__ guid initializer heap = (b, heap')
    /\ heap !! b = None
    /\ heap' !! b = Some B
    /\ Request.redirectedTo B = None
    /\ Request.redirectedFrom B = Request.init_redirectedFrom initializer
    /\ match Request.init_redirectedFrom initializer with
       | Some a =>
           exists A A',
             heap !! a = Some A
             /\ heap' !! a = Some A'
             /\ Request.redirectedTo A' = Some b
             /\ Request.redirectedFrom A' = Request.redirectedFrom A
             /\ Request._guid A' = Request._guid A
             /\ Request._initializer A' = Request._initializer A
             /\ Request._failure_text A' = Request._failure_text A
       | None => True
       end
    /\ (forall c, c <> b -> Some c <> Request.init_redirectedFrom initializer ->
                  heap' !! c = heap !! c).
Proof.
  intros Hvalid.
  pose proof (Request_init_fresh guid initializer heap) as Hfresh.
  unfold Request.__init__ in *. simpl in Hfresh.
  set (b := fresh (dom heap)) in *.
  unfold from_nullable_channel.
  destruct (Request.init_redirectedFrom initializer) as [a|] eqn:Hpred.
  - destruct (Hvalid a eq_refl) as [A HA].
    assert (Hab : b <> a) by (intros ->; congruence).
    eexists b, _, _. split; [reflexivity|].
    split; [assumption|].
    split; [rewrite lookup_alter_ne by congruence; apply lookup_insert_eq|].
    split; [reflexivity|]. split; [reflexivity|].
    split.
    + exists A, (Request.set_redirected_to (Some b) A).
      split; [assumption|].
      split; [|now repeat split].
      rewrite lookup_alter_eq, lookup_insert_ne by assumption.
      now rewrite HA.
    + intros c Hcb Hca.
      rewrite lookup_alter_ne by congruence.
      now rewrite lookup_insert_ne.
  - eexists b, _, _. split; [reflexivity|].
    split; [assumption|].
    split; [apply lookup_insert_eq|].
    repeat split.
    intros c Hcb _. now rewrite lookup_insert_ne.
Qed.

Lemma redirect_chain_consistency_witness :
  let heap0 := snd (Request.__init__ "request@1" (sample_initializer None) ∅) in
  let a := fst (Request.__init__ "request@1" (sample_initializer None) ∅) in
  exists b heap' B,
    Request.__init__ "request@2" (sample_initializer (Some a)) heap0 = (b, heap')
    /\ heap0 !! b = None
    /\ heap' !! b = Some B
    /\ Request.redirectedTo B = None
    /\ Request.redirectedFrom B = Some a
    /\ (exists A A',
          heap0 !! a = Some A
          /\ heap' !! a = Some A'
          /\ Request.redirectedTo A' = Some b
          /\ Request.redirectedFrom A' = Request.redirectedFrom A
          /\ Request._guid A' = Request._guid A
          /\ Request._initializer A' = Request._initializer A
          /\ Request._failure_text A' = Request._failure_text A)
    /\ (forall c, c <> b -> Some c <> Some a -> heap' !! c = heap0 !! c).
Proof.
  apply (redirect_chain_consistency "request@2"
           (sample_initializer
              (Some (fst (Request.__init__ "request@1" (sample_initializer None) ∅))))
           (snd (Request.__init__ "request@1" (sample_initializer None) ∅))).
  simpl. intros a [= <-]. rewrite lookup_insert_eq. eauto.
Defined.

(* ================================================================== *)
(** ** Route: disposition actions *)

Section RouteFacts.
Variable str_lower : string -> string.
Variable guess_type : PathArg -> option string.
Variable read_bytes : PathArg -> option bytes.
Variable remote : list Message -> Message -> Reply.

Lemma Channel_send_spec (guid method : string) (params : Params) (log : list Message) :
  let m := {| msg_guid := guid; msg_method := method; msg_params := params |} in
  bind (Channel_send remote guid method params) (fun _ => ret tt) log
  = (outcome_of_reply (remote log m), log ++ [m]).
Proof.
  unfold bind, Channel_send, ret, outcome_of_reply. simpl.
  now destruct (remote log _).
Qed.

Lemma fulfill_body_error (body : option Body) (path : option PathArg) (e : exn) :
  Route.fulfill_body read_bytes body path = Raise e -> e = OSError.
Proof.
  unfold Route.fulfill_body.
  destruct body as [[s|b]|]; try discriminate.
  destruct path as [p|]; try discriminate.
  destruct (truthy_path (Some p)); try discriminate.
  destruct (read_bytes p); [discriminate|]. now intros [= <-].
Qed.

Lemma fulfill_params_error status headers body path contentType (e : exn) :
  Route.fulfill_params str_lower guess_type read_bytes
    status headers body path contentType = Raise e ->
  e = OSError.
Proof.
  unfold Route.fulfill_params, result_bind.
  destruct (Route.fulfill_body read_bytes body path) as [[[[? ?] ?] ?]|e'] eqn:E;
    [discriminate|].
  intros [= <-]. eapply fulfill_body_error, E.
Qed.
End RouteFacts.

Section Disposition.
Variable str_lower : string -> string.
Variable guess_type : PathArg -> option string.
Variable read_bytes : PathArg -> option bytes.
Variable remote : list Message -> Message -> Reply.

Lemma fulfill_params_unreadable status headers path contentType :
  unreadable read_bytes (Fulfill status headers None path contentType) = true ->
  Route.fulfill_params str_lower guess_type read_bytes
    status headers None path contentType = Raise OSError.
Proof.
  unfold unreadable, Route.fulfill_params, Route.fulfill_body.
  destruct path as [f|]; [|discriminate].
  destruct (truthy_path (Some f)); [|discriminate].
  now destruct (read_bytes f).
Qed.

Lemma fulfill_params_readable status headers body path contentType :
  unreadable read_bytes (Fulfill status headers body path contentType) = false ->
  exists p, Route.fulfill_params str_lower guess_type read_bytes
              status headers body path contentType = Ok p.
Proof.
  unfold unreadable, Route.fulfill_params, Route.fulfill_body.
  destruct body as [[s|b]|]; try (intros _; eexists; reflexivity).
  destruct path as [f|]; try (intros _; eexists; reflexivity).
  destruct (truthy_path (Some f)); try (intros _; eexists; reflexivity).
  destruct (read_bytes f); [intros _; eexists; reflexivity | discriminate].
Qed.

Lemma perform_unreadable (self : Route.t) (a : Action) (log : list Message) :
  unreadable read_bytes a = true ->
  wire_name a = "fulfill"
  /\ perform str_lower guess_type read_bytes remote self a log = (Raise OSError, log).
Proof.
  destruct a as [errorCode|status headers body path contentType|method headers postData];
    try discriminate.
  destruct body as [body|]; [discriminate|].
  intros Hu. split; [reflexivity|].
  simpl. unfold Route.fulfill, bind, lift.
  now rewrite (fulfill_params_unreadable _ _ _ _ Hu).
Qed.

Lemma perform_sends (self : Route.t) (a : Action) :
  unreadable read_bytes a = false ->
  exists m,
    msg_guid m = Route._guid self
    /\ msg_method m = wire_name a
    /\ match a with
       | Abort errorCode => msg_params m = AbortParams errorCode
       | Fulfill status headers body path contentType =>
           exists p,
             Route.fulfill_params str_lower guess_type read_bytes
               status headers body path contentType = Ok p
             /\ msg_params m = FulfillParamsOf p
       | Continue _ _ _ => exists overrides, msg_params m = ContinueParamsOf overrides
       end
    /\ forall log,
         perform str_lower guess_type read_bytes remote self a log
         = (outcome_of_reply (remote log m), log ++ [m]).
Proof.
  destruct a as [errorCode|status headers body path contentType|method headers postData];
    intros Hu; simpl.
  - eexists. split; [|split; [|split]];
      [| | |intros log; apply Channel_send_spec]; reflexivity.
  - destruct (fulfill_params_readable _ _ _ _ _ Hu) as [p Hp].
    unfold Route.fulfill. rewrite Hp.
    eexists. split; [|split; [|split]];
      [| | |intros log; unfold bind at 1, lift; apply Channel_send_spec];
      try reflexivity.
    exists p. split; reflexivity.
  - eexists. split; [|split; [|split]];
      [| | |intros log; apply Channel_send_spec]; try reflexivity.
    eexists. reflexivity.
Qed.

(** C1 (as the code has it): no disposition action consults a local
    disposition state, and none ever raises [ProtocolViolation].  When
    the text it has to encode is encodable, an action behaves the same
    way after any history of the Route: a [fulfill] without [body] whose
    truthy [path] cannot be read raises the error of the read and sends
    nothing; every other action, [abort] and [continue_] always, sends
    its one message (for [fulfill], the payload it computed) and hands
    the caller the remote side's answer. *)
Theorem disposition_not_guarded_locally (self : Route.t) (a : Action)
    (log : list Message) :
  fst (perform str_lower guess_type read_bytes remote self a log)
  <> Raise ProtocolViolation
  /\ (text_encodable a = true ->
      if unreadable read_bytes a
      then wire_name a = "fulfill"
           /\ exists e,
                e <> ProtocolViolation
                /\ forall log',
                     perform str_lower guess_type read_bytes remote self a log'
                     = (Raise e, log')
      else exists m,
             msg_guid m = Route._guid self
             /\ msg_method m = wire_name a
             /\ match a with
                | Abort errorCode => msg_params m = AbortParams errorCode
                | Fulfill status headers body path contentType =>
                    exists p,
                      Route.fulfill_params str_lower guess_type read_bytes
                        status headers body path contentType = Ok p
                      /\ msg_params m = FulfillParamsOf p
                | Continue _ _ _ =>
                    exists overrides, msg_params m = ContinueParamsOf overrides
                end
             /\ forall log',
                  perform str_lower guess_type read_bytes remote self a log'
                  = (outcome_of_reply (remote log' m), log' ++ [m])).
Proof.
  destruct (unreadable read_bytes a) eqn:Hu.
  - split.
    + destruct (perform_unreadable self a log Hu) as [_ ->]. discriminate.
    + intros _. split; [apply (perform_unreadable self a log Hu)|].
      exists OSError. split; [discriminate|].
      intros log'. apply (perform_unreadable self a log' Hu).
  - destruct (perform_sends self a Hu) as (m & Hg & Hm & Hp & Hrun).
    split.
    + rewrite Hrun. simpl. destruct (remote log m); discriminate.
    + intros _. exists m. auto.
Qed.
End Disposition.

Lemma disposition_not_guarded_locally_witness :
  let run := perform ascii_lower guess_png two_files one_shot_driver sample_route in
  (exists m,
      msg_guid m = "route@1"
      /\ msg_method m = "fulfill"
      /\ (exists p,
            Route.fulfill_params ascii_lower guess_png two_files
              None None (Some (BodyStr "hello")) (Some (PathStr "missing.txt")) None = Ok p
            /\ msg_params m = FulfillParamsOf p)
      /\ forall log',
           run (Fulfill None None (Some (BodyStr "hello")) (Some (PathStr "missing.txt")) None)
             log'
           = (outcome_of_reply (one_shot_driver log' m), log' ++ [m]))
  /\ (exists e,
        e <> ProtocolViolation
        /\ forall log',
             run (Fulfill None None None (Some (PathStr "missing.txt")) None) log'
             = (Raise e, log')).
Proof.
  split.
  - exact (proj2 (disposition_not_guarded_locally ascii_lower guess_png two_files
                    one_shot_driver sample_route
                    (Fulfill None None (Some (BodyStr "hello"))
                       (Some (PathStr "missing.txt")) None) [])
             eq_refl).
  - exact (proj2 (proj2 (disposition_not_guarded_locally ascii_lower guess_png two_files
                           one_shot_driver sample_route
                           (Fulfill None None None (Some (PathStr "missing.txt")) None) [])
                    eq_refl)).
Defined.

Example second_abort_is_sent :
  let run := perform ascii_lower guess_png two_files one_shot_driver sample_route in
  let m := {| msg_guid := "route@1"; msg_method := "abort"; msg_params := AbortParams None |} in
  run (Abort None) [] = (Ok tt, [m])
  /\ run (Abort None) [m] = (Raise (ChannelError "Route is already handled!"), [m; m]).
Proof. split; reflexivity. Qed.

(** C1 as stated fails: after a completed [abort], a second [abort] on
    the same Route is sent to the remote side, and what the caller gets
    is the remote side's rejection. *)
Lemma second_disposition_reaches_remote :
  ~ (forall (self : Route.t) (a1 a2 : Action) (log : list Message),
        let run := perform ascii_lower guess_png two_files one_shot_driver self in
        fst (run a1 log) = Ok tt ->
        run a2 (snd (run a1 log)) = (Raise ProtocolViolation, snd (run a1 log))).
Proof.
  intros H.
  specialize (H sample_route (Abort None) (Abort None) [] eq_refl).
  vm_compute in H. discriminate H.
Qed.

(* ================================================================== *)
(** ** Response: fetching the body *)

Section BodyFacts.
Variable remote : list Message -> Message -> Reply.

Lemma body_spec (self : Response.t) (log : list Message) :
  Response.body remote self log
  = (body_of_reply (remote log (body_message self)), log ++ [body_message self]).
Proof.
  unfold Response.body, bind, Channel_send, body_of_reply, body_message, lift, raise.
  simpl. destruct (remote log _) as [[| |]|]; reflexivity.
Qed.

(** C6 (as the code has it): [body()] keeps no cache.  Every call makes
    one remote [body] round trip and returns the base64 decoding of
    that reply, so a second call on the same Response sends a second
    message; its result is a function of the reply alone, hence the
    same payload whenever the remote side answers with the same text. *)
Theorem body_fetches_every_time (self : Response.t) (log : list Message) :
  let m := body_message self in
  let first := Response.body remote self log in
  let second := Response.body remote self (snd first) in
  first = (body_of_reply (remote log m), log ++ [m])
  /\ second = (body_of_reply (remote (log ++ [m]) m), log ++ [m; m]).
Proof.
  simpl. rewrite !body_spec. simpl. split; [reflexivity|].
  now rewrite <- app_assoc.
Qed.
End BodyFacts.

Example body_twice :
  let m := body_message sample_response in
  Response.body one_shot_driver sample_response [] = (Ok (encode "hello"), [m])
  /\ Response.body one_shot_driver sample_response [m] = (Ok (encode "hello"), [m; m]).
Proof. split; reflexivity. Qed.

(** C6 as stated fails: a repeated [body()] is not served from a cache,
    it repeats the round trip. *)
Lemma body_repeats_round_trip :
  ~ (forall (self : Response.t) (log : list Message) (payload : bytes),
        let first := Response.body one_shot_driver self log in
        fst first = Ok payload ->
        Response.body one_shot_driver self (snd first) = (Ok payload, snd first)).
Proof.
  intros H.
  specialize (H sample_response [] (encode "hello") eq_refl).
  vm_compute in H. discriminate H.
Qed.

(* ================================================================== *)
(** ** Request: the post data accessors *)

Section PostData.
Variable json_loads : string -> option JSON.
Variable parse_qsl : string -> list (string * string).

Lemma postData_nonempty (self : Request.t) (s : string) :
  Request.postData self = Ok (Some s) -> truthy_str s = true.
Proof.
  unfold Request.postData, result_bind.
  destruct (Request.postDataBuffer self) as [[[|b data]|]|]; try discriminate.
  unfold decode.
  destruct (utf8_valid _); [|discriminate].
  intros [= <-]. reflexivity.
Qed.

(** How [postDataJSON] goes on once there is a text payload. *)
Lemma postDataJSON_with_payload (self : Request.t) (post_data : string) :
  Request.postData self = Ok (Some post_data) ->
  Request.postDataJSON json_loads parse_qsl self =
  match dict_get "content-type" (Request.headers self) with
  | None => Raise (KeyError "content-type")
  | Some content_type =>
      if negb (truthy_str content_type) then Ok None
      else if String.eqb content_type "application/x-www-form-urlencoded"
      then Ok (Some (Request.dict_of_pairs (parse_qsl post_data)))
      else match json_loads post_data with
           | Some JNull => Ok None
           | Some j => Ok (Some j)
           | None => Raise JSONDecodeError
           end
  end.
Proof.
  intros Hpd. pose proof (postData_nonempty _ _ Hpd) as Hne.
  unfold Request.postDataJSON. rewrite Hpd. simpl. rewrite Hne. simpl.
  unfold dict_getitem. now destruct (dict_get _ _).
Qed.

(** C2 (failing input): a Request with the payload [{}] and no
    [content-type] header.  [postDataJSON] does not return absent:
    the header lookup raises KeyError. *)
Theorem postDataJSON_without_content_type_raises :
  Request.postData (sample_request (Some "e30=") []) = Ok (Some "{}")
  /\ Request.postDataJSON json_loads parse_qsl (sample_request (Some "e30=") [])
     = Raise (KeyError "content-type")
  /\ Request.postDataJSON json_loads parse_qsl
       (sample_request (Some "e30=")
          [{| name := "Content-Type"; value := "application/json" |}])
     = Raise (KeyError "content-type")
  /\ Request.postDataJSON json_loads parse_qsl
       (sample_request (Some "e30=") [{| name := "content-type"; value := "" |}])
     = Ok None.
Proof. repeat split; reflexivity. Qed.

(** C10 (as the code has it): when the initializer's post data decodes
    to zero bytes, [postData] and [postDataJSON] return absent exactly
    as for a Request with no payload; [postDataBuffer] returns absent
    when the base64 text is empty, and the empty byte string when a
    non-empty text decodes to nothing. *)
Theorem empty_payload_is_absent (self self0 : Request.t) (s : string) :
  Request.init_postData (Request._initializer self) = Some s ->
  b64decode s = Ok [] ->
  Request.init_postData (Request._initializer self0) = None ->
  (Request.postDataBuffer self0 = Ok None
   /\ Request.postData self0 = Ok None
   /\ Request.postDataJSON json_loads parse_qsl self0 = Ok None)
  /\ Request.postDataBuffer self = Ok (if truthy_str s then Some [] else None)
  /\ Request.postData self = Ok None
  /\ Request.postDataJSON json_loads parse_qsl self = Ok None.
Proof.
  intros Hs Hdec H0.
  assert (Hb0 : Request.postDataBuffer self0 = Ok None)
    by (unfold Request.postDataBuffer; now rewrite H0).
  assert (Hb : Request.postDataBuffer self = Ok (if truthy_str s then Some [] else None)).
  { unfold Request.postDataBuffer. rewrite Hs. simpl.
    destruct (truthy_str s); simpl; [now rewrite Hdec | reflexivity]. }
  assert (Hp0 : Request.postData self0 = Ok None)
    by (unfold Request.postData; now rewrite Hb0).
  assert (Hp : Request.postData self = Ok None)
    by (unfold Request.postData; rewrite Hb; now destruct (truthy_str s)).
  repeat split; try assumption.
  - unfold Request.postDataJSON. now rewrite Hp0.
  - unfold Request.postDataJSON. now rewrite Hp.
Qed.
End PostData.

Lemma empty_payload_is_absent_witness :
  let self := sample_request (Some " ") [] in
  let self0 := sample_request None [] in
  (Request.postDataBuffer self0 = Ok None
   /\ Request.postData self0 = Ok None
   /\ Request.postDataJSON (fun _ => None) (fun _ => []) self0 = Ok None)
  /\ Request.postDataBuffer self = Ok (Some [])
  /\ Request.postData self = Ok None
  /\ Request.postDataJSON (fun _ => None) (fun _ => []) self = Ok None.
Proof.
  apply (empty_payload_is_absent (fun _ => None) (fun _ => [])
           (sample_request (Some " ") []) (sample_request None []) " ");
    reflexivity.
Defined.

(** C10 as stated fails for [postDataBuffer]: a non-empty base64 text
    that decodes to zero bytes gives the empty byte string, not absent. *)
Lemma postDataBuffer_empty_bytes_not_absent :
  ~ (forall (self : Request.t) (s : string),
        Request.init_postData (Request._initializer self) = Some s ->
        b64decode s = Ok [] ->
        Request.postDataBuffer self = Ok None).
Proof.
  intros H.
  specialize (H (sample_request (Some " ") []) " " eq_refl eq_refl).
  vm_compute in H. discriminate H.
Qed.

(* ================================================================== *)
(** ** Route.fulfill: the headers it sends *)

Lemma dict_keys_set_In {V} (n k : string) (v : V) (d : dict V) :
  In n (dict_keys (dict_set k v d)) <-> n = k \/ In n (dict_keys d).
Proof.
  rewrite dict_keys_set. unfold dict_contains.
  destruct (dict_get k d) eqn:E.
  - split; [tauto|]. intros [->|H]; [|assumption].
    destruct (in_dec string_dec k (dict_keys d)) as [Hin|Hnin]; [assumption|].
    apply dict_get_None_notin in Hnin. congruence.
  - rewrite in_app_iff. simpl. intuition congruence.
Qed.

Section FoldSet.
Context {X V : Type} (kf : X -> string) (vf : X -> V).

Lemma fold_set_keys (items : list X) (acc : dict V) (n : string) :
  In n (dict_keys (fold_left (fun d x => dict_set (kf x) (vf x) d) items acc))
  <-> In n (dict_keys acc) \/ In n (map kf items).
Proof.
  revert acc. induction items as [|x items IH]; intros acc; simpl; [tauto|].
  rewrite IH, dict_keys_set_In. intuition congruence.
Qed.

Lemma fold_set_NoDup (items : list X) (acc : dict V) :
  NoDup (dict_keys acc) ->
  NoDup (dict_keys (fold_left (fun d x => dict_set (kf x) (vf x) d) items acc)).
Proof.
  revert acc. induction items as [|x items IH]; intros acc Hacc; simpl; [assumption|].
  apply IH. now apply dict_set_NoDup.
Qed.

Lemma fold_set_get_None (items : list X) (n : string) :
  dict_get n (fold_left (fun d x => dict_set (kf x) (vf x) d) items []) = None
  <-> forall x, In x items -> kf x <> n.
Proof.
  rewrite dict_get_None_notin, fold_set_keys, in_map_iff. simpl.
  split.
  - intros H x Hx Hk. apply H. right. exists x. tauto.
  - intros H [[]|(x & Hk & Hx)]. exact (H x Hx Hk).
Qed.
End FoldSet.

Lemma parse_headers_keys (l : list Header) (n : string) :
  In n (dict_keys (parse_headers l)) <-> In n (map name l).
Proof. unfold parse_headers. rewrite fold_set_keys. simpl. tauto. Qed.

Lemma wire_header_serialize (k : string) (d : dict string) :
  wire_header k (serialize_headers d) = dict_get k d.
Proof.
  unfold wire_header.
  induction d as [|[k' v'] d IH]; simpl; [reflexivity|].
  destruct (String.eqb k' k); [reflexivity | exact IH].
Qed.

Section FulfillHeaders.
Variable str_lower : string -> string.
Variable guess_type : PathArg -> option string.
Variable read_bytes : PathArg -> option bytes.

Lemma lower_headers_fold (headers : option (dict string)) :
  Route.lower_headers str_lower headers
  = fold_left (fun d x => dict_set (str_lower (fst x)) (snd x) d)
      (match headers with Some h => h | None => [] end) [].
Proof.
  unfold Route.lower_headers.
  destruct headers as [h|]; [|reflexivity].
  generalize (@nil (string * string)).
  induction h as [|[k v] h IH]; intros acc; simpl; [reflexivity | apply IH].
Qed.

Lemma lower_headers_keys (headers : option (dict string)) (n : string) :
  In n (dict_keys (Route.lower_headers str_lower headers))
  <-> exists k, In k (supplied headers) /\ str_lower k = n.
Proof.
  rewrite lower_headers_fold, fold_set_keys. simpl.
  unfold dict_keys. rewrite in_map_iff. split.
  - intros [[]|((k & v) & Hn & Hin)]. exists k. split; [|assumption].
    apply in_map_iff. now exists (k, v).
  - intros (k & Hin & Hn). right.
    apply in_map_iff in Hin as ((k' & v) & Hk & Hin). simpl in Hk. subst k'.
    now exists (k, v).
Qed.

Lemma lower_headers_get_None (headers : option (dict string)) (n : string) :
  dict_get n (Route.lower_headers str_lower headers) = None
  <-> forall k, In k (supplied headers) -> str_lower k <> n.
Proof.
  rewrite dict_get_None_notin, lower_headers_keys. split.
  - intros H k Hin Hk. apply H. now exists k.
  - intros H (k & Hin & Hk). exact (H k Hin Hk).
Qed.

(** The headers dictionary after the content-type step of [fulfill]. *)
Lemma fulfill_headers_content_type headers path contentType (n : nat) :
  dict_get "content-type"
    (Route.fulfill_headers str_lower guess_type headers path contentType n)
  = if truthy_opt_str contentType then contentType
    else match path with
         | Some f =>
             if truthy_path path
             then Some (Route.guess_or_default (guess_type f))
             else dict_get "content-type" (Route.lower_headers str_lower headers)
         | None => dict_get "content-type" (Route.lower_headers str_lower headers)
         end.
Proof.
  unfold Route.fulfill_headers.
  set (h0 := Route.lower_headers str_lower headers).
  match goal with
  | |- dict_get _ (if ?c then dict_set _ _ ?h1 else _) = _ =>
      assert (Hskip : dict_get "content-type" (if c then dict_set "content-length" (str_of_nat n) h1 else h1)
                      = dict_get "content-type" h1)
        by (destruct c; [now apply dict_get_set_ne | reflexivity])
  end.
  rewrite Hskip. clear Hskip.
  destruct contentType as [ct|]; simpl.
  - destruct (truthy_str ct); [apply dict_get_set_eq|].
    destruct path as [f|]; [|reflexivity].
    destruct (truthy_path (Some f)); [apply dict_get_set_eq | reflexivity].
  - destruct path as [f|]; [|reflexivity].
    destruct (truthy_path (Some f)); [apply dict_get_set_eq | reflexivity].
Qed.

(** The headers dictionary after the content-length step of [fulfill]. *)
Lemma fulfill_headers_content_length headers path contentType (n : nat) :
  dict_get "content-length"
    (Route.fulfill_headers str_lower guess_type headers path contentType n)
  = match dict_get "content-length" (Route.lower_headers str_lower headers) with
    | Some v => Some v
    | None => if Nat.eqb n 0 then None else Some (str_of_nat n)
    end.
Proof.
  unfold Route.fulfill_headers.
  set (h0 := Route.lower_headers str_lower headers).
  match goal with
  | |- dict_get _ (if _ && negb (dict_contains _ ?h) then _ else _) = _ =>
      set (h1 := h);
      assert (H1 : dict_get "content-length" h1 = dict_get "content-length" h0)
  end.
  { subst h1. destruct (truthy_opt_str contentType).
    - destruct contentType; [now apply dict_get_set_ne | reflexivity].
    - destruct (truthy_path path); [|reflexivity].
      destruct path; [now apply dict_get_set_ne | reflexivity]. }
  unfold dict_contains. rewrite H1.
  destruct (dict_get "content-length" h0) as [v|] eqn:E.
  - rewrite andb_false_r. now rewrite H1.
  - destruct (Nat.eqb n 0); simpl; [now rewrite H1 | apply dict_get_set_eq].
Qed.

Lemma fulfill_params_inv status headers body path contentType (p : FulfillParams) :
  Route.fulfill_params str_lower guess_type read_bytes
    status headers body path contentType = Ok p ->
  exists n,
    Route.fulfill_body read_bytes body path = Ok (p_body p, p_isBase64 p, p_path p, n)
    /\ p_headers p
       = serialize_headers
           (Route.fulfill_headers str_lower guess_type headers path contentType n)
    /\ p_status p = status
    /\ p_contentType p = contentType.
Proof.
  unfold Route.fulfill_params, result_bind.
  destruct (Route.fulfill_body read_bytes body path) as [[[[b i] pth] n]|e];
    [|discriminate].
  intros [= <-]. simpl. now exists n.
Qed.
End FulfillHeaders.

Lemma parse_headers_exact_name (l : list Header) (n : string) :
  dict_get n (parse_headers l)
  = dict_get n (parse_headers (List.filter (fun h => String.eqb (name h) n) l)).
Proof.
  induction l as [|h l IH] using rev_ind; [reflexivity|].
  rewrite List.filter_app, parse_headers_snoc. simpl.
  destruct (String.eqb (name h) n) eqn:E.
  - apply String.eqb_eq in E. subst n.
    now rewrite parse_headers_snoc, !dict_get_set_eq.
  - apply String.eqb_neq in E.
    rewrite app_nil_r, dict_get_set_ne by assumption. exact IH.
Qed.

Section FulfillClaims.
Variable str_lower : string -> string.
Variable guess_type : PathArg -> option string.
Variable read_bytes : PathArg -> option bytes.
Variable remote : list Message -> Message -> Reply.

(** C4 (as the code has it): the content-type [fulfill] sends.  A
    non-empty [contentType] argument wins and overwrites any
    content-type header of the caller; otherwise, with a [path] that
    is not the empty string, it is the type guessed from the path, or
    [application/octet-stream] when there is no guess; otherwise
    [fulfill] sets none, and the entry is what the caller's headers
    carry (none when they carry none). *)
Theorem content_type_resolution status headers body path contentType
    (p : FulfillParams) :
  Route.fulfill_params str_lower guess_type read_bytes
    status headers body path contentType = Ok p ->
  (forall ct, contentType = Some ct -> ct <> "" ->
     wire_header "content-type" (p_headers p) = Some ct)
  /\ (truthy_opt_str contentType = false ->
      forall f, path = Some f -> truthy_path path = true ->
        wire_header "content-type" (p_headers p)
        = Some (match guess_type f with
                | Some g => if truthy_str g then g else "application/octet-stream"
                | None => "application/octet-stream"
                end))
  /\ (truthy_opt_str contentType = false -> truthy_path path = false ->
      wire_header "content-type" (p_headers p)
      = dict_get "content-type" (Route.lower_headers str_lower headers)
      /\ ((forall k, In k (supplied headers) -> str_lower k <> "content-type") ->
          wire_header "content-type" (p_headers p) = None)).
Proof.
  intros Hp. apply fulfill_params_inv in Hp as (n & _ & Hh & _).
  rewrite Hh, wire_header_serialize, fulfill_headers_content_type.
  split; [|split].
  - intros ct -> Hct. simpl. destruct ct; [congruence | reflexivity].
  - intros Hct f -> Hpath. rewrite Hct, Hpath.
    unfold Route.guess_or_default. now destruct (guess_type f) as [[|]|].
  - intros Hct Hpath. rewrite Hct.
    assert (E : match path with
                | Some f =>
                    if truthy_path path
                    then Some (Route.guess_or_default (guess_type f))
                    else dict_get "content-type" (Route.lower_headers str_lower headers)
                | None => dict_get "content-type" (Route.lower_headers str_lower headers)
                end = dict_get "content-type" (Route.lower_headers str_lower headers))
      by (destruct path; [now rewrite Hpath | reflexivity]).
    rewrite E. split; [reflexivity|].
    intros Hnone. now apply lower_headers_get_None.
Qed.

(** C5 (as the code has it): the body and content-length [fulfill]
    sends.  A text body goes verbatim with [isBase64 = false]; a bytes
    body, or with no body the content of the [path] file, goes base64
    encoded with [isBase64 = true].  With [n] the byte length of that
    body: when no header name of the caller lower-cases to
    [content-length], the header is added with value [n] if [n] is not
    zero and is left out if [n] is zero; a content-length of the
    caller is kept. *)
Theorem fulfill_body_and_content_length status headers body path contentType
    (p : FulfillParams) :
  Route.fulfill_params str_lower guess_type read_bytes
    status headers body path contentType = Ok p ->
  exists n : nat,
    match body with
    | Some (BodyStr s) =>
        p_body p = Some s /\ p_isBase64 p = Some false /\ n = length (encode s)
    | Some (BodyBytes b) =>
        p_body p = Some (b64encode b) /\ p_isBase64 p = Some true /\ n = length b
    | None =>
        if truthy_path path then
          exists f content,
            path = Some f /\ read_bytes f = Some content
            /\ p_body p = Some (b64encode content) /\ p_isBase64 p = Some true
            /\ n = length content
        else p_body p = None /\ p_isBase64 p = None /\ n = 0
    end
    /\ ((forall k, In k (supplied headers) -> str_lower k <> "content-length") ->
        n <> 0 ->
        wire_header "content-length" (p_headers p) = Some (str_of_nat n))
    /\ ((forall k, In k (supplied headers) -> str_lower k <> "content-length") ->
        n = 0 ->
        wire_header "content-length" (p_headers p) = None)
    /\ (forall v, dict_get "content-length" (Route.lower_headers str_lower headers) = Some v ->
        wire_header "content-length" (p_headers p) = Some v).
Proof.
  intros Hp. apply fulfill_params_inv in Hp as (n & Hb & Hh & _).
  exists n. rewrite Hh, wire_header_serialize, fulfill_headers_content_length.
  split; [|split; [|split]].
  - unfold Route.fulfill_body in Hb.
    destruct body as [[s|b]|].
    + now injection Hb as <- <- _ <-.
    + now injection Hb as <- <- _ <-.
    + destruct path as [f|]; [|now injection Hb as <- <- _ <-].
      destruct (truthy_path (Some f)); [|now injection Hb as <- <- _ <-].
      destruct (read_bytes f) as [content|] eqn:Hr; [|discriminate].
      injection Hb as <- <- _ <-. now exists f, content.
  - intros Hnone Hn. apply lower_headers_get_None in Hnone. rewrite Hnone.
    destruct n; [congruence | reflexivity].
  - intros Hnone ->. apply lower_headers_get_None in Hnone. now rewrite Hnone.
  - intros v ->. reflexivity.
Qed.
End FulfillClaims.

Lemma content_type_resolution_witness :
  exists p,
    Route.fulfill_params ascii_lower guess_png two_files
      None (Some [("Content-Type", "text/html")]) None (Some (PathStr "icon.png")) None
    = Ok p
    /\ wire_header "content-type" (p_headers p) = Some "image/png".
Proof.
  eexists. split; [reflexivity|].
  exact (proj1 (proj2 (content_type_resolution ascii_lower guess_png two_files
                         None (Some [("Content-Type", "text/html")]) None
                         (Some (PathStr "icon.png")) None _ eq_refl))
           eq_refl (PathStr "icon.png") eq_refl eq_refl).
Defined.

Example content_type_examples :
  let sent_type headers path contentType :=
    match Route.fulfill_params ascii_lower guess_png two_files
            None headers None path contentType with
    | Ok p => wire_header "content-type" (p_headers p)
    | Raise _ => None
    end in
  sent_type None (Some (PathStr "icon.png")) None = Some "image/png"
  /\ sent_type None (Some (PathStr "data.xyz")) None = Some "application/octet-stream"
  /\ sent_type (Some [("Content-Type", "text/html")]) (Some (PathStr "icon.png"))
       (Some "text/plain") = Some "text/plain"
  /\ sent_type (Some [("Content-Type", "text/html")]) None None = Some "text/html"
  /\ sent_type None None None = None.
Proof. repeat split; reflexivity. Qed.

(** C4 as stated fails: an explicit but empty [contentType] does not
    win over the caller's content-type header. *)
Lemma empty_contentType_does_not_win :
  ~ (forall (headers : option (dict string)) (contentType : string) (p : FulfillParams),
        Route.fulfill_params ascii_lower guess_png two_files
          None headers None None (Some contentType) = Ok p ->
        wire_header "content-type" (p_headers p) = Some contentType).
Proof.
  intros H.
  specialize (H (Some [("content-type", "text/html")]) "" _ eq_refl).
  vm_compute in H. discriminate H.
Qed.

Lemma fulfill_body_and_content_length_witness :
  exists p n,
    Route.fulfill_params ascii_lower guess_png two_files
      None None (Some (BodyStr "hello")) None None = Ok p
    /\ (p_body p = Some "hello" /\ p_isBase64 p = Some false /\ n = 5)
    /\ wire_header "content-length" (p_headers p) = Some "5".
Proof.
  eexists.
  destruct (fulfill_body_and_content_length ascii_lower guess_png two_files
              None None (Some (BodyStr "hello")) None None _ eq_refl)
    as (n & Hbody & Hadd & _).
  exists n. split; [reflexivity|]. split; [exact Hbody|].
  destruct Hbody as (_ & _ & ->).
  apply Hadd; [intros k [] | discriminate].
Defined.

Example fulfill_body_examples :
  let sent body path headers :=
    match Route.fulfill_params ascii_lower guess_png two_files
            None headers body path None with
    | Ok p => Some (p_body p, p_isBase64 p, wire_header "content-length" (p_headers p))
    | Raise _ => None
    end in
  sent (Some (BodyStr "hello")) None None = Some (Some "hello", Some false, Some "5")
  /\ sent (Some (BodyBytes ["h"; "i"]%byte)) None None = Some (Some "aGk=", Some true, Some "2")
  /\ sent None (Some (PathStr "data.xyz")) None = Some (Some "aGk=", Some true, Some "2")
  /\ sent (Some (BodyStr "hello")) (Some (PathStr "data.xyz")) None
     = Some (Some "hello", Some false, Some "5")
  /\ sent (Some (BodyStr "hello")) None (Some [("Content-Length", "99")])
     = Some (Some "hello", Some false, Some "99")
  /\ sent (Some (BodyStr "")) None None = Some (Some "", Some false, None)
  /\ sent None (Some (PathStr "missing.txt")) None = None.
Proof. repeat split; reflexivity. Qed.

(** C5 as stated fails: for an empty body no content-length is added,
    though the caller supplied none. *)
Lemma empty_body_gets_no_content_length :
  ~ (forall (s : string) (p : FulfillParams),
        Route.fulfill_params ascii_lower guess_png two_files
          None None (Some (BodyStr s)) None None = Ok p ->
        wire_header "content-length" (p_headers p)
        = Some (str_of_nat (length (encode s)))).
Proof.
  intros H. specialize (H "" _ eq_refl).
  vm_compute in H. discriminate H.
Qed.

(* ================================================================== *)
(** ** Header names and letter case *)

Section HeaderCase.
Variable str_lower : string -> string.
Variable guess_type : PathArg -> option string.
Variable read_bytes : PathArg -> option bytes.
Variable remote : list Message -> Message -> Reply.

Lemma continue_headers_verbatim (self : Route.t) (method : option string)
    (h : dict string) (postData : option Body) (log : list Message) :
  exists m overrides,
    Route.continue_ remote self method (Some h) postData log
    = (outcome_of_reply (remote log m), log ++ [m])
    /\ msg_params m = ContinueParamsOf overrides
    /\ o_headers overrides = (if truthy_dict h then Some (serialize_headers h) else None).
Proof.
  unfold Route.continue_. eexists. eexists.
  split; [apply Channel_send_spec|]. split; reflexivity.
Qed.

Lemma fulfill_headers_keeps headers path contentType (len : nat) (n : string) :
  In n (dict_keys (Route.lower_headers str_lower headers)) ->
  In n (dict_keys (Route.fulfill_headers str_lower guess_type headers path contentType len)).
Proof.
  intros Hn. unfold Route.fulfill_headers.
  repeat match goal with
         | |- context [if ?c then _ else _] => destruct c
         | |- context [match ?o with Some _ => _ | None => _ end] => destruct o
         | |- In _ (dict_keys (dict_set _ _ _)) => apply dict_keys_set_In; right
         end; assumption.
Qed.

Lemma fulfill_headers_adds headers path contentType (len : nat) (n : string) :
  In n (dict_keys (Route.fulfill_headers str_lower guess_type headers path contentType len)) ->
  n = "content-type" \/ n = "content-length"
  \/ In n (dict_keys (Route.lower_headers str_lower headers)).
Proof.
  unfold Route.fulfill_headers. intros Hn.
  repeat match type of Hn with
         | context [if ?c then _ else _] => destruct c
         | context [match ?o with Some _ => _ | None => _ end] => destruct o
         | In _ (dict_keys (dict_set _ _ _)) =>
             apply dict_keys_set_In in Hn as [->|Hn]; [tauto|]
         end; tauto.
Qed.

Lemma fulfill_sent_names status headers body path contentType (p : FulfillParams) :
  Route.fulfill_params str_lower guess_type read_bytes
    status headers body path contentType = Ok p ->
  (forall k, In k (supplied headers) -> In (str_lower k) (map name (p_headers p)))
  /\ (forall n, In n (map name (p_headers p)) ->
        n = "content-type" \/ n = "content-length"
        \/ exists k, In k (supplied headers) /\ str_lower k = n).
Proof.
  intros Hp. apply fulfill_params_inv in Hp as (len & _ & Hh & _).
  rewrite Hh, serialize_headers_names. split.
  - intros k Hk. apply fulfill_headers_keeps, lower_headers_keys. now exists k.
  - intros n Hn. apply fulfill_headers_adds in Hn as [->|[->|Hn]]; [tauto | tauto |].
    right. right. now apply lower_headers_keys.
Qed.

(** C3 (as the code has it): header names are taken as they are, with
    their case, by [parse_headers], [serialize_headers], the [headers]
    properties and [continue_]: a key of the parsed map is a name of the
    wire list, a lookup sees only the entries with exactly that name,
    and names that differ in case stay distinct.  The exception is
    [fulfill], which lower-cases every header name of the caller: the
    names it sends are those lower-cased names and the derived
    [content-type] and [content-length]. *)
Theorem header_name_case status headers body path contentType (p : FulfillParams) :
  Route.fulfill_params str_lower guess_type read_bytes
    status headers body path contentType = Ok p ->
  (forall l n, In n (dict_keys (parse_headers l)) <-> In n (map name l))
  /\ (forall l n,
        dict_get n (parse_headers l)
        = dict_get n (parse_headers (List.filter (fun h => String.eqb (name h) n) l)))
  /\ parse_headers [{| name := "A"; value := "1" |}; {| name := "a"; value := "2" |}]
     = [("A", "1"); ("a", "2")]
  /\ (forall d, map name (serialize_headers d) = dict_keys d)
  /\ (forall r n, In n (dict_keys (Request.headers r))
                  <-> In n (map name (Request.init_headers (Request._initializer r))))
  /\ (forall r n, In n (dict_keys (Response.headers r))
                  <-> In n (map name (Response.init_headers (Response._initializer r))))
  /\ (forall self method h postData log,
        exists m overrides,
          Route.continue_ remote self method (Some h) postData log
          = (outcome_of_reply (remote log m), log ++ [m])
          /\ msg_params m = ContinueParamsOf overrides
          /\ o_headers overrides
             = (if truthy_dict h then Some (serialize_headers h) else None))
  /\ (forall k, In k (supplied headers) -> In (str_lower k) (map name (p_headers p)))
  /\ (forall n, In n (map name (p_headers p)) ->
        n = "content-type" \/ n = "content-length"
        \/ exists k, In k (supplied headers) /\ str_lower k = n).
Proof.
  intros Hp.
  split; [exact parse_headers_keys|].
  split; [exact parse_headers_exact_name|].
  split; [reflexivity|].
  split; [exact serialize_headers_names|].
  split; [intros r n; apply parse_headers_keys|].
  split; [intros r n; apply parse_headers_keys|].
  split; [exact continue_headers_verbatim|].
  eapply fulfill_sent_names, Hp.
Qed.
End HeaderCase.

Lemma header_name_case_witness :
  exists p,
    Route.fulfill_params ascii_lower guess_png two_files
      None (Some [("X-Foo", "1"); ("x-foo", "2")]) (Some (BodyStr "hi")) None None = Ok p
    /\ map name (p_headers p) = ["x-foo"; "content-length"]
    /\ In (ascii_lower "X-Foo") (map name (p_headers p)).
Proof.
  eexists. split; [reflexivity|]. split; [reflexivity|].
  apply (header_name_case ascii_lower guess_png two_files one_shot_driver
           None (Some [("X-Foo", "1"); ("x-foo", "2")]) (Some (BodyStr "hi")) None None
           _ eq_refl).
  simpl. now left.
Defined.

(** C3 as stated fails: [fulfill] does not keep the case of a header
    name that has nothing to do with content-length or content-type. *)
Lemma fulfill_rewrites_header_case :
  ~ (forall (headers : dict string) (p : FulfillParams),
        Route.fulfill_params ascii_lower guess_png two_files
          None (Some headers) None None None = Ok p ->
        forall k, In k (dict_keys headers) -> In k (map name (p_headers p))).
Proof.
  intros H.
  specialize (H [("X-Foo", "bar")] _ eq_refl "X-Foo" (or_introl eq_refl)).
  vm_compute in H. destruct H as [H|[]]. discriminate H.
Qed.

(* ================================================================== *)
(** ** base64: decoding what was encoded *)

(** Exhaustive checks over small ranges of [N]. *)
Lemma forall_below (n : nat) (P : N -> bool) :
  forallb P (map N.of_nat (seq 0 n)) = true ->
  forall x, (x < N.of_nat n)%N -> P x = true.
Proof.
  intros H x Hx. rewrite forallb_forall in H. apply H.
  apply in_map_iff. exists (N.to_nat x). split; [apply N2Nat.id|].
  apply in_seq. lia.
Qed.

Lemma forall_below2 (n : nat) (P : N -> N -> bool) :
  forallb (fun x => forallb (P x) (map N.of_nat (seq 0 n))) (map N.of_nat (seq 0 n)) = true ->
  forall x y, (x < N.of_nat n)%N -> (y < N.of_nat n)%N -> P x y = true.
Proof.
  intros H x y Hx Hy.
  apply (forall_below n (fun x => forallb (P x) (map N.of_nat (seq 0 n)))) with (x := x) in H;
    [|assumption].
  now apply (forall_below n (P x)).
Qed.

Lemma byte_below (b : byte) : (Byte.to_N b < N.of_nat 256)%N.
Proof. pose proof (Byte.to_N_bounded b). lia. Qed.


Ltac by_sextet Hv :=
  let Hin := fresh "Hin" in
  match type of Hv with
  | (?v < _)%N =>
      assert (Hin : In v (map N.of_nat (seq 0 64)))
        by (apply in_map_iff; exists (N.to_nat v); split; [apply N2Nat.id | apply in_seq; lia]);
      clear Hv; cbv [seq map] in Hin; simpl N.of_nat in Hin;
      repeat (destruct Hin as [<-|Hin]; [reflexivity|]); destruct Hin
  end.

Section Steps.
Variables (rest : list ascii) (q lc : N) (out : list byte).

Lemma a2b_step_0 (v : N) :
  (v < 64)%N ->
  a2b_base64_loop (b64_char v :: rest) q lc 0 out
  = a2b_base64_loop rest (N.land (q + 1) 3) (N.lor (N.shiftl lc 6) v) 6 out.
Proof. intros Hv. by_sextet Hv. Qed.

Lemma a2b_step_6 (v : N) :
  (v < 64)%N ->
  a2b_base64_loop (b64_char v :: rest) q lc 6 out
  = a2b_base64_loop rest (N.land (q + 1) 3)
      (N.land (N.lor (N.shiftl lc 6) v) 15) 4
      (match Byte.of_N (N.land (N.shiftr (N.lor (N.shiftl lc 6) v) 4) 255) with
       | Some x => x
       | None => x00
       end :: out).
Proof. intros Hv. by_sextet Hv. Qed.

Lemma a2b_step_4 (v : N) :
  (v < 64)%N ->
  a2b_base64_loop (b64_char v :: rest) q lc 4 out
  = a2b_base64_loop rest (N.land (q + 1) 3)
      (N.land (N.lor (N.shiftl lc 6) v) 3) 2
      (match Byte.of_N (N.land (N.shiftr (N.lor (N.shiftl lc 6) v) 2) 255) with
       | Some x => x
       | None => x00
       end :: out).
Proof. intros Hv. by_sextet Hv. Qed.

Lemma a2b_step_2 (v : N) :
  (v < 64)%N ->
  a2b_base64_loop (b64_char v :: rest) q lc 2 out
  = a2b_base64_loop rest (N.land (q + 1) 3)
      (N.land (N.lor (N.shiftl lc 6) v) 0) 0
      (match Byte.of_N (N.land (N.shiftr (N.lor (N.shiftl lc 6) v) 0) 255) with
       | Some x => x
       | None => x00
       end :: out).
Proof. intros Hv. by_sextet Hv. Qed.
End Steps.

Lemma sextet_ascii (v : N) :
  (v < 64)%N -> (N_of_ascii (b64_char v) <=? 127)%N = true.
Proof.
  intros Hv.
  now apply (forall_below 64 (fun v => (N_of_ascii (b64_char v) <=? 127)%N)).
Qed.

(** The sextets of a group, and what the decoder's shift register holds
    after each of them. *)
Lemma sextets_first (x y : N) :
  (x < 256)%N -> (y < 256)%N ->
  let v1 := N.shiftr x 2 in
  let v2 := N.lor (N.shiftl (N.land x 3) 4) (N.shiftr y 4) in
  let lc := N.lor (N.shiftl (N.lor (N.shiftl 0 6) v1) 6) v2 in
  (v1 < 64)%N /\ (v2 < 64)%N
  /\ N.land (N.shiftr lc 4) 255 = x /\ N.land lc 15 = N.shiftr y 4.
Proof.
  intros Hx Hy.
  pose proof (forall_below2 256
    (fun x y =>
       let v1 := N.shiftr x 2 in
       let v2 := N.lor (N.shiftl (N.land x 3) 4) (N.shiftr y 4) in
       let lc := N.lor (N.shiftl (N.lor (N.shiftl 0 6) v1) 6) v2 in
       (v1 <? 64)%N && (v2 <? 64)%N
       && (N.land (N.shiftr lc 4) 255 =? x)%N && (N.land lc 15 =? N.shiftr y 4)%N)
    ltac:(vm_compute; reflexivity) x y Hx Hy) as H.
  cbv zeta in *. rewrite !andb_true_iff in H.
  destruct H as [[[H1 H2] H3] H4].
  apply N.ltb_lt in H1, H2. apply N.eqb_eq in H3, H4. auto.
Qed.

Lemma sextets_first_only (x : N) :
  (x < 256)%N ->
  let v1 := N.shiftr x 2 in
  let v2 := N.shiftl (N.land x 3) 4 in
  let lc := N.lor (N.shiftl (N.lor (N.shiftl 0 6) v1) 6) v2 in
  (v1 < 64)%N /\ (v2 < 64)%N /\ N.land (N.shiftr lc 4) 255 = x.
Proof.
  intros Hx.
  pose proof (forall_below 256
    (fun x =>
       let v1 := N.shiftr x 2 in
       let v2 := N.shiftl (N.land x 3) 4 in
       let lc := N.lor (N.shiftl (N.lor (N.shiftl 0 6) v1) 6) v2 in
       (v1 <? 64)%N && (v2 <? 64)%N && (N.land (N.shiftr lc 4) 255 =? x)%N)
    ltac:(vm_compute; reflexivity) x Hx) as H.
  cbv zeta in *. rewrite !andb_true_iff in H.
  destruct H as [[H1 H2] H3].
  apply N.ltb_lt in H1, H2. apply N.eqb_eq in H3. auto.
Qed.

Lemma sextets_second (y z : N) :
  (y < 256)%N -> (z < 256)%N ->
  let v3 := N.lor (N.shiftl (N.land y 15) 2) (N.shiftr z 6) in
  let lc := N.lor (N.shiftl (N.shiftr y 4) 6) v3 in
  (v3 < 64)%N /\ N.land (N.shiftr lc 2) 255 = y /\ N.land lc 3 = N.shiftr z 6.
Proof.
  intros Hy Hz.
  pose proof (forall_below2 256
    (fun y z =>
       let v3 := N.lor (N.shiftl (N.land y 15) 2) (N.shiftr z 6) in
       let lc := N.lor (N.shiftl (N.shiftr y 4) 6) v3 in
       (v3 <? 64)%N && (N.land (N.shiftr lc 2) 255 =? y)%N
       && (N.land lc 3 =? N.shiftr z 6)%N)
    ltac:(vm_compute; reflexivity) y z Hy Hz) as H.
  cbv zeta in *. rewrite !andb_true_iff in H.
  destruct H as [[H1 H2] H3].
  apply N.ltb_lt in H1. apply N.eqb_eq in H2, H3. auto.
Qed.

Lemma sextets_second_only (y : N) :
  (y < 256)%N ->
  let v3 := N.shiftl (N.land y 15) 2 in
  let lc := N.lor (N.shiftl (N.shiftr y 4) 6) v3 in
  (v3 < 64)%N /\ N.land (N.shiftr lc 2) 255 = y.
Proof.
  intros Hy.
  pose proof (forall_below 256
    (fun y =>
       let v3 := N.shiftl (N.land y 15) 2 in
       let lc := N.lor (N.shiftl (N.shiftr y 4) 6) v3 in
       (v3 <? 64)%N && (N.land (N.shiftr lc 2) 255 =? y)%N)
    ltac:(vm_compute; reflexivity) y Hy) as H.
  cbv zeta in *. rewrite !andb_true_iff in H.
  destruct H as [H1 H2].
  apply N.ltb_lt in H1. apply N.eqb_eq in H2. auto.
Qed.

Lemma sextets_third (z : N) :
  (z < 256)%N ->
  let v4 := N.land z 63 in
  let lc := N.lor (N.shiftl (N.shiftr z 6) 6) v4 in
  (v4 < 64)%N /\ N.land (N.shiftr lc 0) 255 = z.
Proof.
  intros Hz.
  pose proof (forall_below 256
    (fun z =>
       let v4 := N.land z 63 in
       let lc := N.lor (N.shiftl (N.shiftr z 6) 6) v4 in
       (v4 <? 64)%N && (N.land (N.shiftr lc 0) 255 =? z)%N)
    ltac:(vm_compute; reflexivity) z Hz) as H.
  cbv zeta in *. rewrite !andb_true_iff in H.
  destruct H as [H1 H2].
  apply N.ltb_lt in H1. apply N.eqb_eq in H2. auto.
Qed.

Lemma list_ind3 {A} (P : list A -> Prop) :
  P [] -> (forall x, P [x]) -> (forall x y, P [x; y]) ->
  (forall x y z l, P l -> P (x :: y :: z :: l)) ->
  forall l, P l.
Proof.
  intros H0 H1 H2 H3.
  fix IH 1. intros [|x [|y [|z l]]].
  - exact H0.
  - apply H1.
  - apply H2.
  - apply H3, IH.
Qed.

Lemma b64encode_group (x y z : byte) (l : bytes) :
  list_ascii_of_string (b64encode (x :: y :: z :: l))
  = b64_char (N.shiftr (Byte.to_N x) 2)
    :: b64_char (N.lor (N.shiftl (N.land (Byte.to_N x) 3) 4) (N.shiftr (Byte.to_N y) 4))
    :: b64_char (N.lor (N.shiftl (N.land (Byte.to_N y) 15) 2) (N.shiftr (Byte.to_N z) 6))
    :: b64_char (N.land (Byte.to_N z) 63)
    :: list_ascii_of_string (b64encode l).
Proof. reflexivity. Qed.

Lemma b64encode_one (x : byte) :
  list_ascii_of_string (b64encode [x])
  = [b64_char (N.shiftr (Byte.to_N x) 2);
     b64_char (N.shiftl (N.land (Byte.to_N x) 3) 4);
     BASE64_PAD; BASE64_PAD].
Proof. reflexivity. Qed.

Lemma b64encode_two (x y : byte) :
  list_ascii_of_string (b64encode [x; y])
  = [b64_char (N.shiftr (Byte.to_N x) 2);
     b64_char (N.lor (N.shiftl (N.land (Byte.to_N x) 3) 4) (N.shiftr (Byte.to_N y) 4));
     b64_char (N.shiftl (N.land (Byte.to_N y) 15) 2);
     BASE64_PAD].
Proof. reflexivity. Qed.

Lemma a2b_base64_loop_encoded (b : bytes) :
  forall out, a2b_base64_loop (list_ascii_of_string (b64encode b)) 0 0 0 out
              = Ok (rev out ++ b).
Proof.
  induction b as [|x|x y|x y z l IH] using list_ind3; intros out.
  - simpl. now rewrite app_nil_r.
  - rewrite b64encode_one.
    destruct (sextets_first_only _ (byte_below x)) as (H1 & H2 & E1).
    rewrite a2b_step_0, a2b_step_6 by assumption.
    rewrite E1, Byte.of_to_N. reflexivity.
  - rewrite b64encode_two.
    destruct (sextets_first _ _ (byte_below x) (byte_below y)) as (H1 & H2 & E1 & E2).
    destruct (sextets_second_only _ (byte_below y)) as (H3 & E3).
    rewrite a2b_step_0, a2b_step_6, a2b_step_4 by assumption.
    rewrite E1, E2, E3, !Byte.of_to_N. simpl. now rewrite <- app_assoc.
  - rewrite b64encode_group.
    destruct (sextets_first _ _ (byte_below x) (byte_below y)) as (H1 & H2 & E1 & E2).
    destruct (sextets_second _ _ (byte_below y) (byte_below z)) as (H3 & E3 & E4).
    destruct (sextets_third _ (byte_below z)) as (H4 & E5).
    rewrite a2b_step_0, a2b_step_6, a2b_step_4, a2b_step_2 by assumption.
    rewrite E1, E2, E3, E4, E5, !Byte.of_to_N, N.land_0_r.
    change (N.land (N.land (N.land (N.land (0 + 1) 3 + 1) 3 + 1) 3 + 1) 3) with 0%N.
    rewrite IH. simpl. now rewrite <- !app_assoc.
Qed.

Lemma b64encode_is_ascii (b : bytes) :
  forallb (fun c => (N_of_ascii c <=? 0x7f)%N) (list_ascii_of_string (b64encode b)) = true.
Proof.
  induction b as [|x|x y|x y z l IH] using list_ind3.
  - reflexivity.
  - rewrite b64encode_one.
    destruct (sextets_first_only _ (byte_below x)) as (H1 & H2 & _).
    simpl. now rewrite !sextet_ascii.
  - rewrite b64encode_two.
    destruct (sextets_first _ _ (byte_below x) (byte_below y)) as (H1 & H2 & _).
    destruct (sextets_second_only _ (byte_below y)) as (H3 & _).
    simpl. now rewrite !sextet_ascii.
  - rewrite b64encode_group.
    destruct (sextets_first _ _ (byte_below x) (byte_below y)) as (H1 & H2 & _).
    destruct (sextets_second _ _ (byte_below y) (byte_below z)) as (H3 & _).
    destruct (sextets_third _ (byte_below z)) as (H4 & _).
    simpl. now rewrite !sextet_ascii, IH.
Qed.

Lemma b64decode_b64encode (b : bytes) : b64decode (b64encode b) = Ok b.
Proof.
  unfold b64decode. rewrite b64encode_is_ascii.
  apply (a2b_base64_loop_encoded b []).
Qed.

Lemma b64encode_nonempty (b : bytes) : b <> [] -> truthy_str (b64encode b) = true.
Proof. destruct b as [|x [|y [|z l]]]; [congruence | reflexivity..]. Qed.

(* ================================================================== *)
(** ** Header codec: normal forms, order and missing names *)

Lemma parse_headers_NoDup (l : list Header) : NoDup (dict_keys (parse_headers l)).
Proof. unfold parse_headers. apply fold_set_NoDup. apply NoDup_nil_2. Qed.

Lemma parse_headers_keys_snoc (l : list Header) (h : Header) :
  dict_keys (parse_headers (l ++ [h]))
  = if in_dec string_dec (name h) (map name l)
    then dict_keys (parse_headers l)
    else dict_keys (parse_headers l) ++ [name h].
Proof.
  rewrite parse_headers_snoc, dict_keys_set. unfold dict_contains.
  destruct (in_dec string_dec (name h) (map name l)) as [Hin|Hnin];
    destruct (dict_get (name h) (parse_headers l)) eqn:E; try reflexivity.
  - apply dict_get_None_notin in E. now rewrite parse_headers_keys in E.
  - assert (In (name h) (dict_keys (parse_headers l))) as Hin.
    { destruct (in_dec string_dec (name h) (dict_keys (parse_headers l))); [assumption|].
      apply dict_get_None_notin in n. congruence. }
    now apply parse_headers_keys in Hin.
Qed.

(** X1: whatever the wire list, the map [parse_headers] builds has no
    key twice, never more entries than the list, and serializing and
    parsing it again gives the same map. *)
Theorem parse_headers_normal_form (l : list Header) :
  NoDup (dict_keys (parse_headers l))
  /\ length (parse_headers l) <= length l
  /\ parse_headers (serialize_headers (parse_headers l)) = parse_headers l.
Proof.
  split; [apply parse_headers_NoDup|].
  split; [|apply parse_serialize, parse_headers_NoDup].
  induction l as [|h l IH] using rev_ind; [simpl; lia|].
  rewrite length_app. simpl.
  rewrite <- (length_map fst). fold (dict_keys (parse_headers (l ++ [h]))).
  rewrite parse_headers_keys_snoc.
  destruct (in_dec _ _ _); unfold dict_keys; rewrite ?length_app, !length_map; simpl; lia.
Qed.

(** X2: a wire list whose names are all different comes back unchanged
    from [parse_headers] followed by [serialize_headers]. *)
Theorem serialize_parse_roundtrip (l : list Header) :
  NoDup (map name l) -> serialize_headers (parse_headers l) = l.
Proof.
  induction l as [|h l IH] using rev_ind; intros Hnd; [reflexivity|].
  rewrite map_app in Hnd. apply NoDup_app in Hnd as (Hl & Hh & _).
  rewrite parse_headers_snoc, dict_set_fresh.
  - rewrite serialize_headers_snoc, (IH Hl). now destruct h.
  - rewrite parse_headers_keys. intros Hin.
    apply (Hh (name h)); apply list_elem_of_In; [assumption | now left].
Qed.

Lemma serialize_parse_roundtrip_witness :
  let l := [{| name := "Host"; value := "a" |}; {| name := "host"; value := "b" |}] in
  serialize_headers (parse_headers l) = l.
Proof.
  apply (serialize_parse_roundtrip
           [{| name := "Host"; value := "a" |}; {| name := "host"; value := "b" |}]).
  simpl. repeat (apply NoDup_cons_2; [rewrite list_elem_of_In; simpl; intuition discriminate|]).
  apply NoDup_nil_2.
Defined.

(** X3: the keys of the parsed map are the names of the wire list in the
    order of their first occurrence. *)
Theorem parse_headers_key_order (l : list Header) :
  dict_keys (parse_headers l) = rev (nodup string_dec (rev (map name l))).
Proof.
  induction l as [|h l IH] using rev_ind; [reflexivity|].
  rewrite parse_headers_keys_snoc, map_app, rev_app_distr. simpl.
  destruct (in_dec string_dec (name h) (map name l)) as [Hin|Hnin];
    destruct (in_dec string_dec (name h) (rev (map name l))) as [Hin'|Hnin'].
  - exact IH.
  - exfalso. apply Hnin'. now apply in_rev in Hin.
  - exfalso. apply Hnin. now apply in_rev.
  - simpl. now rewrite IH.
Qed.

(** X4: looking up a name in the [headers] of a Request raises KeyError
    exactly when no entry of the wire list has that very name; names
    that differ in case do not count. *)
Theorem headers_lookup_missing (r : Request.t) (n : string) :
  dict_getitem n (Request.headers r) = Raise (KeyError n)
  <-> ~ In n (map name (Request.init_headers (Request._initializer r))).
Proof.
  unfold dict_getitem, Request.headers.
  rewrite <- parse_headers_keys, <- dict_get_None_notin.
  destruct (dict_get n _); split; congruence.
Qed.

(* ================================================================== *)
(** ** Request: reading the post data back *)

Lemma b64decode_empty_text (s : string) (e : exn) :
  truthy_str s = false -> b64decode s <> Raise e.
Proof. destruct s; [discriminate | discriminate]. Qed.

Lemma postDataBuffer_decodes (self : Request.t) (s : string) :
  Request.init_postData (Request._initializer self) = Some s ->
  truthy_str s = true ->
  Request.postDataBuffer self = result_bind (b64decode s) (fun b => Ok (Some b)).
Proof. intros Hs Ht. unfold Request.postDataBuffer. rewrite Hs. simpl. now rewrite Ht. Qed.

Lemma encode_nonempty (s : string) : s <> "" -> encode s <> [].
Proof. destruct s; [congruence | discriminate]. Qed.

Lemma postData_of_bytes (self : Request.t) (b : bytes) :
  Request.postDataBuffer self = Ok (Some b) -> b <> [] ->
  Request.postData self = result_bind (decode b) (fun s => Ok (Some s)).
Proof.
  intros Hb Hne. unfold Request.postData. rewrite Hb. simpl.
  destruct b; [congruence | reflexivity].
Qed.

Lemma postData_reads_encoded (r : Request.t) (s : string) :
  s <> "" ->
  utf8_valid (map Byte.to_N (encode s)) = true ->
  Request.init_postData (Request._initializer r) = Some (b64encode (encode s)) ->
  Request.postDataBuffer r = Ok (Some (encode s))
  /\ Request.postData r = Ok (Some s).
Proof.
  intros Hne Hutf Hinit.
  assert (Hb : Request.postDataBuffer r = Ok (Some (encode s))).
  { rewrite (postDataBuffer_decodes _ _ Hinit).
    - now rewrite b64decode_b64encode.
    - apply b64encode_nonempty, encode_nonempty, Hne. }
  split; [exact Hb|].
  rewrite (postData_of_bytes _ _ Hb (encode_nonempty _ Hne)).
  unfold decode. rewrite Hutf. simpl.
  unfold encode. now rewrite string_of_list_byte_of_string.
Qed.

(** X5: a Request whose initializer carries the base64 text of a
    non-empty, well-formed UTF-8 string gives that string back:
    [postDataBuffer] returns its bytes and [postData] the text. *)
Theorem postData_round_trip (self : Request.t) (s : string) :
  s <> "" ->
  utf8_valid (map Byte.to_N (encode s)) = true ->
  Request.init_postData (Request._initializer self) = Some (b64encode (encode s)) ->
  Request.postDataBuffer self = Ok (Some (encode s))
  /\ Request.postData self = Ok (Some s).
Proof. exact (postData_reads_encoded self s). Qed.

Lemma postData_round_trip_witness :
  Request.postDataBuffer (sample_request (Some "aGVsbG8=") []) = Ok (Some (encode "hello"))
  /\ Request.postData (sample_request (Some "aGVsbG8=") []) = Ok (Some "hello").
Proof.
  apply (postData_round_trip (sample_request (Some "aGVsbG8=") []) "hello");
    [discriminate | reflexivity | reflexivity].
Defined.

(** X6: [postData] never returns the empty string, and a text it
    returns is the UTF-8 decoding of the bytes the initializer's base64
    text stands for. *)
Theorem postData_sound (self : Request.t) (s : string) :
  Request.postData self = Ok (Some s) ->
  s <> ""
  /\ exists b64,
       Request.init_postData (Request._initializer self) = Some b64
       /\ b64decode b64 = Ok (encode s)
       /\ utf8_valid (map Byte.to_N (encode s)) = true.
Proof.
  intros H. split.
  { intros ->. unfold Request.postData, result_bind in H.
    destruct (Request.postDataBuffer self) as [[[|x b]|]|]; try discriminate.
    unfold decode in H. destruct (utf8_valid _); discriminate. }
  unfold Request.postData, Request.postDataBuffer, result_bind in H.
  destruct (Request.init_postData (Request._initializer self)) as [b64|];
    [|discriminate].
  exists b64. split; [reflexivity|].
  simpl in H. destruct (truthy_str b64); simpl in H; [|discriminate].
  destruct (b64decode b64) as [[|x b]|]; try discriminate.
  unfold decode in H.
  destruct (utf8_valid (map Byte.to_N (x :: b))) eqn:Hv; [|discriminate].
  injection H as <-.
  unfold encode. now rewrite list_byte_of_string_of_list_byte.
Qed.

Lemma postData_sound_witness :
  "{}" <> ""
  /\ exists b64,
       Request.init_postData (Request._initializer (sample_request (Some "e30=") []))
       = Some b64
       /\ b64decode b64 = Ok (encode "{}")
       /\ utf8_valid (map Byte.to_N (encode "{}")) = true.
Proof. apply (postData_sound (sample_request (Some "e30=") []) "{}"). reflexivity. Defined.

Section PostDataErrors.
Variable json_loads : string -> option JSON.
Variable parse_qsl : string -> list (string * string).

(** X7: when the payload bytes are not well-formed UTF-8,
    [postDataBuffer] still returns them, while [postData] and
    [postDataJSON] raise UnicodeDecodeError, whatever the headers. *)
Theorem postData_invalid_utf8 (self : Request.t) (s : string) (b : bytes) :
  Request.init_postData (Request._initializer self) = Some s ->
  b64decode s = Ok b ->
  b <> [] ->
  utf8_valid (map Byte.to_N b) = false ->
  Request.postDataBuffer self = Ok (Some b)
  /\ Request.postData self = Raise UnicodeDecodeError
  /\ Request.postDataJSON json_loads parse_qsl self = Raise UnicodeDecodeError.
Proof.
  intros Hs Hdec Hne Hutf.
  assert (Ht : truthy_str s = true).
  { destruct s; [|reflexivity]. vm_compute in Hdec. congruence. }
  assert (Hb : Request.postDataBuffer self = Ok (Some b))
    by (rewrite (postDataBuffer_decodes _ _ Hs Ht); now rewrite Hdec).
  assert (Hp : Request.postData self = Raise UnicodeDecodeError).
  { rewrite (postData_of_bytes _ _ Hb Hne). unfold decode. now rewrite Hutf. }
  repeat split; try assumption.
  unfold Request.postDataJSON. now rewrite Hp.
Qed.

(** X8: when the initializer's post data is not decodable base64, the
    error of the decoder comes out of [postDataBuffer], [postData] and
    [postDataJSON] alike. *)
Theorem postData_malformed_base64 (self : Request.t) (s : string) (e : exn) :
  Request.init_postData (Request._initializer self) = Some s ->
  b64decode s = Raise e ->
  Request.postDataBuffer self = Raise e
  /\ Request.postData self = Raise e
  /\ Request.postDataJSON json_loads parse_qsl self = Raise e.
Proof.
  intros Hs Hdec.
  assert (Ht : truthy_str s = true).
  { destruct (truthy_str s) eqn:E; [reflexivity|].
    now apply (b64decode_empty_text s e) in E. }
  assert (Hb : Request.postDataBuffer self = Raise e)
    by (rewrite (postDataBuffer_decodes _ _ Hs Ht); now rewrite Hdec).
  assert (Hp : Request.postData self = Raise e)
    by (unfold Request.postData; now rewrite Hb).
  repeat split; try assumption.
  unfold Request.postDataJSON. now rewrite Hp.
Qed.

Lemma dict_of_pairs_fold (pairs : list (string * string)) :
  Request.dict_of_pairs pairs
  = JObject (fold_left (fun d x => dict_set (fst x) (JString (snd x)) d) pairs []).
Proof.
  unfold Request.dict_of_pairs. f_equal.
  generalize (@nil (string * JSON)).
  induction pairs as [|[k v] pairs IH]; intros acc; simpl; [reflexivity | apply IH].
Qed.

(** X9: for a form-encoded payload [postDataJSON] returns an object
    with one member per different key of the parsed pairs, and for a
    key given several times the value of its last pair. *)
Theorem postDataJSON_form (self : Request.t) (post_data : string) :
  Request.postData self = Ok (Some post_data) ->
  dict_get "content-type" (Request.headers self)
  = Some "application/x-www-form-urlencoded" ->
  exists d,
    Request.postDataJSON json_loads parse_qsl self = Ok (Some (JObject d))
    /\ NoDup (dict_keys d)
    /\ (forall k, In k (dict_keys d) <-> In k (map fst (parse_qsl post_data)))
    /\ (forall l1 k v l2,
          parse_qsl post_data = l1 ++ (k, v) :: l2 ->
          ~ In k (map fst l2) ->
          dict_get k d = Some (JString v)).
Proof.
  intros Hpd Hct.
  rewrite (postDataJSON_with_payload _ _ _ _ Hpd), Hct. simpl.
  rewrite dict_of_pairs_fold. eexists. split; [reflexivity|].
  split; [apply fold_set_NoDup, NoDup_nil_2|].
  split.
  - intros k. rewrite fold_set_keys. simpl. tauto.
  - intros l1 k v l2 -> Hk. clear Hpd Hct.
    induction l2 as [|[k' v'] l2 IH] using rev_ind.
    + rewrite fold_left_app. simpl. apply dict_get_set_eq.
    + replace (l1 ++ (k, v) :: l2 ++ [(k', v')])
        with ((l1 ++ (k, v) :: l2) ++ [(k', v')])
        by (rewrite <- app_assoc; reflexivity).
      rewrite fold_left_app. simpl.
      rewrite map_app, in_app_iff in Hk. simpl in Hk.
      rewrite dict_get_set_ne by tauto.
      apply IH. tauto.
Qed.

(** X10: with a text payload and a non-empty content-type header other
    than the form type, [postDataJSON] is [json.loads] of the text: it
    raises JSONDecodeError exactly when the text does not parse, and
    returns absent for the JSON text [null]. *)
Theorem postDataJSON_json (self : Request.t) (post_data content_type : string) :
  Request.postData self = Ok (Some post_data) ->
  dict_get "content-type" (Request.headers self) = Some content_type ->
  content_type <> "" ->
  content_type <> "application/x-www-form-urlencoded" ->
  (Request.postDataJSON json_loads parse_qsl self = Raise JSONDecodeError
   <-> json_loads post_data = None)
  /\ (Request.postDataJSON json_loads parse_qsl self = Ok None
      <-> json_loads post_data = Some JNull)
  /\ (forall j, j <> JNull ->
        (Request.postDataJSON json_loads parse_qsl self = Ok (Some j)
         <-> json_loads post_data = Some j)).
Proof.
  intros Hpd Hct Hne Hform.
  rewrite (postDataJSON_with_payload _ _ _ _ Hpd), Hct.
  assert (Ht : truthy_str content_type = true) by (destruct content_type; [congruence | reflexivity]).
  apply String.eqb_neq in Hform. rewrite Ht, Hform. simpl.
  destruct (json_loads post_data) as [[]|]; simpl;
    (split; [|split]); try (intros j Hj); split; intros; congruence.
Qed.
End PostDataErrors.

Lemma postData_invalid_utf8_witness :
  Request.postDataBuffer (sample_request (Some "/w==") []) = Ok (Some [xff])
  /\ Request.postData (sample_request (Some "/w==") []) = Raise UnicodeDecodeError
  /\ Request.postDataJSON (fun _ => None) (fun _ => []) (sample_request (Some "/w==") [])
     = Raise UnicodeDecodeError.
Proof.
  apply (postData_invalid_utf8 (fun _ => None) (fun _ => [])
           (sample_request (Some "/w==") []) "/w==" [xff]);
    [reflexivity | reflexivity | discriminate | reflexivity].
Defined.

Lemma postData_malformed_base64_witness :
  Request.postDataBuffer (sample_request (Some "a") []) = Raise BinasciiError
  /\ Request.postData (sample_request (Some "a") []) = Raise BinasciiError
  /\ Request.postDataJSON (fun _ => None) (fun _ => []) (sample_request (Some "a") [])
     = Raise BinasciiError.
Proof.
  apply (postData_malformed_base64 (fun _ => None) (fun _ => [])
           (sample_request (Some "a") []) "a" BinasciiError);
    reflexivity.
Defined.

Lemma postDataJSON_form_witness :
  let self :=
    sample_request (Some "YT0xJmI9MiZhPTM=")
      [{| name := "content-type"; value := "application/x-www-form-urlencoded" |}] in
  let parse_qsl := fun _ : string => [("a", "1"); ("b", "2"); ("a", "3")] in
  exists d,
    Request.postDataJSON (fun _ => None) parse_qsl self = Ok (Some (JObject d))
    /\ NoDup (dict_keys d)
    /\ (forall k, In k (dict_keys d) <-> In k ["a"; "b"; "a"])
    /\ (forall l1 k v l2,
          [("a", "1"); ("b", "2"); ("a", "3")] = l1 ++ (k, v) :: l2 ->
          ~ In k (map fst l2) ->
          dict_get k d = Some (JString v)).
Proof.
  apply (postDataJSON_form (fun _ => None)
           (fun _ : string => [("a", "1"); ("b", "2"); ("a", "3")])
           (sample_request (Some "YT0xJmI9MiZhPTM=")
              [{| name := "content-type"; value := "application/x-www-form-urlencoded" |}])
           "a=1&b=2&a=3");
    reflexivity.
Defined.

Lemma postDataJSON_json_witness :
  let self :=
    sample_request (Some "e30=") [{| name := "content-type"; value := "application/json" |}] in
  let json_loads := fun s : string => if String.eqb s "{}" then Some (JObject []) else None in
  (Request.postDataJSON json_loads (fun _ => []) self = Raise JSONDecodeError
   <-> json_loads "{}" = None)
  /\ (Request.postDataJSON json_loads (fun _ => []) self = Ok None
      <-> json_loads "{}" = Some JNull)
  /\ (forall j, j <> JNull ->
        (Request.postDataJSON json_loads (fun _ => []) self = Ok (Some j)
         <-> json_loads "{}" = Some j)).
Proof.
  apply (postDataJSON_json
           (fun s : string => if String.eqb s "{}" then Some (JObject []) else None)
           (fun _ => [])
           (sample_request (Some "e30=")
              [{| name := "content-type"; value := "application/json" |}])
           "{}" "application/json");
    [reflexivity | reflexivity | discriminate | discriminate].
Defined.

(* ================================================================== *)
(** ** Request: chains of redirects *)

Section InitFacts.
Variables (guid : string) (initializer : Request.Initializer)
  (heap : gmap loc Request.t).


Lemma Request_init_new :
  snd (Request.__init__ guid initializer heap) !! fst (Request.__init__ guid initializer heap)
  = Some {| Request._guid := guid;
            Request._initializer := initializer;
            Request._redirected_from := Request.init_redirectedFrom initializer;
            Request._redirected_to :=
              if decide (Request.init_redirectedFrom initializer = Some (fst (Request.__init__ guid initializer heap)))
              then Some (fst (Request.__init__ guid initializer heap)) else None;
            Request._failure_text := None |}.
Proof.
  unfold Request.__init__, from_nullable_channel. simpl.
  destruct (Request.init_redirectedFrom initializer) as [a|] eqn:E.
  - destruct (decide (Some a = Some (fresh (dom heap)))) as [[= ->]|Hne].
    + now rewrite lookup_alter_eq, lookup_insert_eq.
    + rewrite lookup_alter_ne by congruence. now rewrite lookup_insert_eq.
  - rewrite decide_False by discriminate. now rewrite lookup_insert_eq.
Qed.

Lemma Request_init_pred (a : loc) (A : Request.t) :
  Request.init_redirectedFrom initializer = Some a ->
  heap !! a = Some A ->
  a <> fst (Request.__init__ guid initializer heap)
  /\ snd (Request.__init__ guid initializer heap) !! a = Some (Request.set_redirected_to (Some (fst (Request.__init__ guid initializer heap))) A).
Proof.
  intros Hpred HA.
  pose proof (Request_init_fresh guid initializer heap) as Hfresh.
  assert (Hab : a <> fst (Request.__init__ guid initializer heap)) by (intros ->; congruence).
  split; [assumption|].
  unfold Request.__init__, from_nullable_channel in *. simpl in *.
  rewrite Hpred.
  rewrite lookup_alter_eq, lookup_insert_ne by congruence. now rewrite HA.
Qed.

Lemma Request_init_other (c : loc) :
  c <> fst (Request.__init__ guid initializer heap) -> Request.init_redirectedFrom initializer <> Some c ->
  snd (Request.__init__ guid initializer heap) !! c = heap !! c.
Proof.
  intros Hcb Hc.
  unfold Request.__init__, from_nullable_channel in *. simpl in *.
  destruct (Request.init_redirectedFrom initializer) as [a|].
  - rewrite lookup_alter_ne by congruence. now rewrite lookup_insert_ne.
  - now rewrite lookup_insert_ne.
Qed.

Lemma Request_init_dom :
  dom (snd (Request.__init__ guid initializer heap)) = {[fst (Request.__init__ guid initializer heap)]} ∪ dom heap.
Proof.
  unfold Request.__init__, from_nullable_channel. simpl.
  destruct (Request.init_redirectedFrom initializer) as [a|].
  - now rewrite dom_alter_L, dom_insert_L.
  - now rewrite dom_insert_L.
Qed.
End InitFacts.

Lemma Request_init_new_valid (guid : string) (initializer : Request.Initializer)
    (heap : gmap loc Request.t) :
  (forall a, Request.init_redirectedFrom initializer = Some a -> is_Some (heap !! a)) ->
  snd (Request.__init__ guid initializer heap)
    !! fst (Request.__init__ guid initializer heap)
  = Some {| Request._guid := guid;
            Request._initializer := initializer;
            Request._redirected_from := Request.init_redirectedFrom initializer;
            Request._redirected_to := None;
            Request._failure_text := None |}.
Proof.
  intros Hvalid. rewrite Request_init_new.
  destruct (decide _) as [E|]; [|reflexivity].
  destruct (Hvalid _ E) as [A HA].
  pose proof (Request_init_fresh guid initializer heap). congruence.
Qed.

(** X11: three Requests constructed one after the other, the first
    without predecessor and each next one naming the one before, form a
    chain linked in both directions: [A <-> B <-> C], with nothing before
    [A] and nothing after [C]. *)
Theorem redirect_chain_of_three (heap : gmap loc Request.t)
    (gA gB gC : string) (iA iB iC : Request.Initializer) :
  let '(a, h1) := Request.__init__ gA (initializer_from None iA) heap in
  let '(b, h2) := Request.__init__ gB (initializer_from (Some a) iB) h1 in
  let '(c, h3) := Request.__init__ gC (initializer_from (Some b) iC) h2 in
  (a <> b /\ b <> c /\ a <> c)
  /\ (Request.redirectedFrom <$> h3 !! a) = Some None
  /\ (Request.redirectedTo <$> h3 !! a) = Some (Some b)
  /\ (Request.redirectedFrom <$> h3 !! b) = Some (Some a)
  /\ (Request.redirectedTo <$> h3 !! b) = Some (Some c)
  /\ (Request.redirectedFrom <$> h3 !! c) = Some (Some b)
  /\ (Request.redirectedTo <$> h3 !! c) = Some None.
Proof.
  destruct (Request.__init__ gA _ heap) as [a h1] eqn:EA.
  destruct (Request.__init__ gB _ h1) as [b h2] eqn:EB.
  destruct (Request.__init__ gC _ h2) as [c h3] eqn:EC.
  pose proof (Request_init_new_valid gA (initializer_from None iA) heap) as HA.
  rewrite EA in HA. simpl in HA. specialize (HA ltac:(discriminate)).
  pose proof (Request_init_pred gB (initializer_from (Some a) iB) h1 a _ eq_refl HA)
    as [Hab HA2].
  pose proof (Request_init_new_valid gB (initializer_from (Some a) iB) h1) as HB.
  rewrite EB in *. simpl in *.
  specialize (HB ltac:(intros ? [= <-]; eauto)).
  pose proof (Request_init_pred gC (initializer_from (Some b) iC) h2 b _ eq_refl HB)
    as [Hbc HB3].
  pose proof (Request_init_new_valid gC (initializer_from (Some b) iC) h2) as HC.
  pose proof (Request_init_fresh gC (initializer_from (Some b) iC) h2) as HfC.
  pose proof (Request_init_other gC (initializer_from (Some b) iC) h2 a) as HA3.
  rewrite EC in *. simpl in *.
  specialize (HC ltac:(intros ? [= <-]; eauto)).
  assert (Hac : a <> c) by (intros ->; congruence).
  rewrite HA3 by congruence.
  rewrite HA2, HB3, HC. simpl. repeat split; assumption.
Qed.

(** X12: when a second Request is constructed with the same
    predecessor, the predecessor's [redirectedTo] moves to the second
    one, while the first one still names the predecessor as its
    [redirectedFrom]. *)
Theorem second_successor_takes_over (heap : gmap loc Request.t) (a : loc)
    (A : Request.t) (g1 g2 : string) (i1 i2 : Request.Initializer) :
  heap !! a = Some A ->
  let '(b1, h1) := Request.__init__ g1 (initializer_from (Some a) i1) heap in
  let '(b2, h2) := Request.__init__ g2 (initializer_from (Some a) i2) h1 in
  b1 <> b2
  /\ (Request.redirectedTo <$> h1 !! a) = Some (Some b1)
  /\ (Request.redirectedTo <$> h2 !! a) = Some (Some b2)
  /\ (Request.redirectedFrom <$> h2 !! b1) = Some (Some a)
  /\ (Request.redirectedTo <$> h2 !! b1) = Some None
  /\ (Request.redirectedFrom <$> h2 !! b2) = Some (Some a).
Proof.
  intros HA.
  destruct (Request.__init__ g1 _ heap) as [b1 h1] eqn:E1.
  destruct (Request.__init__ g2 _ h1) as [b2 h2] eqn:E2.
  pose proof (Request_init_pred g1 (initializer_from (Some a) i1) heap a A eq_refl HA)
    as [Hab1 HA1].
  pose proof (Request_init_new_valid g1 (initializer_from (Some a) i1) heap) as HB1.
  rewrite E1 in *. simpl in *.
  specialize (HB1 ltac:(intros ? [= <-]; eauto)).
  pose proof (Request_init_pred g2 (initializer_from (Some a) i2) h1 a _ eq_refl HA1)
    as [Hab2 HA2].
  pose proof (Request_init_new_valid g2 (initializer_from (Some a) i2) h1) as HB2.
  pose proof (Request_init_fresh g2 (initializer_from (Some a) i2) h1) as Hf2.
  pose proof (Request_init_other g2 (initializer_from (Some a) i2) h1 b1) as HB12.
  rewrite E2 in *. simpl in *.
  specialize (HB2 ltac:(intros ? [= <-]; eauto)).
  assert (Hb12 : b1 <> b2) by (intros ->; congruence).
  rewrite HB12 by congruence.
  rewrite HA1, HA2, HB1, HB2. simpl. repeat split; assumption.
Qed.

Lemma second_successor_takes_over_witness :
  let heap0 := snd (Request.__init__ "request@1" (sample_initializer None) ∅) in
  let a := fst (Request.__init__ "request@1" (sample_initializer None) ∅) in
  let '(b1, h1) :=
    Request.__init__ "request@2" (initializer_from (Some a) (sample_initializer None)) heap0 in
  let '(b2, h2) :=
    Request.__init__ "request@3" (initializer_from (Some a) (sample_initializer None)) h1 in
  b1 <> b2
  /\ (Request.redirectedTo <$> h1 !! a) = Some (Some b1)
  /\ (Request.redirectedTo <$> h2 !! a) = Some (Some b2)
  /\ (Request.redirectedFrom <$> h2 !! b1) = Some (Some a)
  /\ (Request.redirectedTo <$> h2 !! b1) = Some None
  /\ (Request.redirectedFrom <$> h2 !! b2) = Some (Some a).
Proof.
  apply (second_successor_takes_over
           (snd (Request.__init__ "request@1" (sample_initializer None) ∅))
           (fst (Request.__init__ "request@1" (sample_initializer None) ∅))
           {| Request._guid := "request@1";
              Request._initializer := sample_initializer None;
              Request._redirected_from := None;
              Request._redirected_to := None;
              Request._failure_text := None |}
           "request@2" "request@3" (sample_initializer None) (sample_initializer None)).
  simpl. apply lookup_insert_eq.
Defined.

Lemma Request_init_links_ok (guid : string) (initializer : Request.Initializer)
    (heap : gmap loc Request.t) :
  redirect_links_ok heap ->
  (forall a, Request.init_redirectedFrom initializer = Some a -> is_Some (heap !! a)) ->
  redirect_links_ok (snd (Request.__init__ guid initializer heap)).
Proof.
  intros Hok Hvalid.
  pose proof (Request_init_fresh guid initializer heap) as Hfresh.
  pose proof (Request_init_new_valid guid initializer heap Hvalid) as Hnew.
  pose proof (Request_init_dom guid initializer heap) as Hdom.
  pose proof (Request_init_other guid initializer heap) as Hother.
  pose proof (Request_init_pred guid initializer heap) as Hpred.
  destruct (Request.__init__ guid initializer heap) as [b heap']. simpl in *.
  assert (Hgrow : forall x, is_Some (heap !! x) -> is_Some (heap' !! x)).
  { intros x Hx. apply elem_of_dom. rewrite Hdom. apply elem_of_union. right.
    now apply elem_of_dom. }
  assert (Hfrom : forall x r, heap !! x = Some r ->
            exists r', heap' !! x = Some r'
                       /\ Request.redirectedFrom r' = Request.redirectedFrom r).
  { intros x r Hx.
    destruct (decide (Request.init_redirectedFrom initializer = Some x)) as [E|E].
    - destruct (Hpred x r E Hx) as [_ ->]. eauto.
    - rewrite Hother; [eauto | intros ->; congruence | assumption]. }
  intros l r Hl.
  destruct (decide (l = b)) as [->|Hlb].
  - rewrite Hnew in Hl. injection Hl as <-. simpl. split.
    + intros a Ha. apply Hgrow, Hvalid, Ha.
    + discriminate.
  - destruct (decide (Request.init_redirectedFrom initializer = Some l)) as [E|E].
    + destruct (Hvalid l E) as [A HA].
      destruct (Hpred l A E HA) as [_ Hl']. rewrite Hl' in Hl. injection Hl as <-.
      simpl. split.
      * intros a Ha. apply Hgrow. now apply (Hok l A HA).
      * intros t [= <-]. eexists. split; [exact Hnew|]. exact E.
    + rewrite Hother in Hl by assumption.
      destruct (Hok l r Hl) as [H1 H2]. split.
      * intros a Ha. apply Hgrow, H1, Ha.
      * intros t Ht. destruct (H2 t Ht) as (rt & Hrt & Hrtl).
        destruct (Hfrom t rt Hrt) as (rt' & Hrt' & Hsame).
        exists rt'. split; [assumption | congruence].
Qed.

(** X13: constructing a Request whose predecessor, if any, is in the
    heap adds exactly one object, at an identity the heap did not have,
    and keeps the links sound: every [redirectedFrom] points into the
    heap and every [redirectedTo] is answered by the [redirectedFrom] of
    its target. *)
Theorem Request_init_keeps_links (guid : string) (initializer : Request.Initializer)
    (heap : gmap loc Request.t) :
  redirect_links_ok heap ->
  (forall a, Request.init_redirectedFrom initializer = Some a -> is_Some (heap !! a)) ->
  (fst (Request.__init__ guid initializer heap) ∉ dom heap)
  /\ dom (snd (Request.__init__ guid initializer heap))
     = {[fst (Request.__init__ guid initializer heap)]} ∪ dom heap
  /\ redirect_links_ok (snd (Request.__init__ guid initializer heap)).
Proof.
  intros Hok Hvalid.
  split; [apply not_elem_of_dom, Request_init_fresh|].
  split; [apply Request_init_dom|].
  now apply Request_init_links_ok.
Qed.

Lemma Request_init_keeps_links_witness :
  let heap0 := snd (Request.__init__ "request@1" (sample_initializer None) ∅) in
  let a := fst (Request.__init__ "request@1" (sample_initializer None) ∅) in
  let heap1 := snd (Request.__init__ "request@2" (sample_initializer (Some a)) heap0) in
  let b := fst (Request.__init__ "request@2" (sample_initializer (Some a)) heap0) in
  (Request.redirectedTo <$> heap1 !! a) = Some (Some b)
  /\ (fst (Request.__init__ "request@3" (sample_initializer (Some b)) heap1) ∉ dom heap1)
  /\ dom (snd (Request.__init__ "request@3" (sample_initializer (Some b)) heap1))
     = {[fst (Request.__init__ "request@3" (sample_initializer (Some b)) heap1)]} ∪ dom heap1
  /\ redirect_links_ok (snd (Request.__init__ "request@3" (sample_initializer (Some b)) heap1)).
Proof.
  split; [reflexivity|].
  apply (Request_init_keeps_links "request@3"
           (sample_initializer
              (Some (fst (Request.__init__ "request@2"
                            (sample_initializer
                               (Some (fst (Request.__init__ "request@1"
                                             (sample_initializer None) ∅))))
                            (snd (Request.__init__ "request@1"
                                    (sample_initializer None) ∅))))))
           (snd (Request.__init__ "request@2"
                   (sample_initializer
                      (Some (fst (Request.__init__ "request@1"
                                    (sample_initializer None) ∅))))
                   (snd (Request.__init__ "request@1" (sample_initializer None) ∅))))).
  - apply Request_init_links_ok.
    + apply Request_init_links_ok.
      * intros l r Hl. rewrite lookup_empty in Hl. discriminate.
      * simpl. discriminate.
    + simpl. intros x [= <-]. rewrite lookup_insert_eq. eauto.
  - simpl. intros x [= <-]. vm_compute. eauto.
Defined.

(* ================================================================== *)
(** ** Route.continue_: the overrides it sends *)

Section ContinueFacts.
Variable remote : list Message -> Message -> Reply.

Lemma continue_spec (self : Route.t) (method : option string)
    (headers : option (dict string)) (postData : option Body) (log : list Message) :
  let overrides :=
    {| o_method := if truthy_opt_str method then method else None;
       o_headers :=
         match headers with
         | Some h => if truthy_dict h then Some (serialize_headers h) else None
         | None => None
         end;
       o_postData :=
         match postData with
         | Some (BodyStr postData) => Some (b64encode (encode postData))
         | Some (BodyBytes postData) => Some (b64encode postData)
         | None => None
         end |} in
  let m := {| msg_guid := Route._guid self; msg_method := "continue";
              msg_params := ContinueParamsOf overrides |} in
  Route.continue_ remote self method headers postData log
  = (outcome_of_reply (remote log m), log ++ [m]).
Proof. unfold Route.continue_. apply Channel_send_spec. Qed.

(** X14: for a [postData] that is missing, bytes or an encodable text,
    [continue_] sends one [continue] message with a sparse patch:
    [method] is left out when it is missing or empty, [headers] when
    missing or empty, and [postData] only when it is missing; an empty
    [postData] is still sent. *)
Theorem continue_sparse_overrides (self : Route.t) (method : option string)
    (headers : option (dict string)) (postData : option Body) (log : list Message) :
  (forall s, postData = Some (BodyStr s) -> encodable s = true) ->
  exists m overrides,
    Route.continue_ remote self method headers postData log
    = (outcome_of_reply (remote log m), log ++ [m])
    /\ msg_guid m = Route._guid self
    /\ msg_method m = "continue"
    /\ msg_params m = ContinueParamsOf overrides
    /\ (o_method overrides = None <-> method = None \/ method = Some "")
    /\ (forall x, o_method overrides = Some x -> method = Some x)
    /\ (o_headers overrides = None <-> headers = None \/ headers = Some [])
    /\ (forall hs, o_headers overrides = Some hs ->
          exists h, headers = Some h /\ hs = serialize_headers h)
    /\ (o_postData overrides = None <-> postData = None).
Proof.
  intros _.
  eexists. eexists. split; [apply continue_spec|]. simpl.
  split; [reflexivity|]. split; [reflexivity|]. split; [reflexivity|].
  split; [|split; [|split; [|split]]].
  - destruct method as [[|c s]|]; simpl; intuition congruence.
  - destruct method as [[|c s]|]; simpl; congruence.
  - destruct headers as [[|x h]|]; simpl; intuition congruence.
  - destruct headers as [[|x h]|]; simpl; intros hs [= <-]. eauto.
  - destruct postData as [[s|b]|]; simpl; intuition congruence.
Qed.
End ContinueFacts.

Lemma continue_sparse_overrides_witness :
  exists m overrides,
    Route.continue_ one_shot_driver sample_route (Some "") (Some []) (Some (BodyStr "")) []
    = (outcome_of_reply (one_shot_driver [] m), [] ++ [m])
    /\ msg_method m = "continue"
    /\ msg_params m = ContinueParamsOf overrides
    /\ o_method overrides = None
    /\ o_headers overrides = None
    /\ o_postData overrides <> None.
Proof.
  destruct (continue_sparse_overrides one_shot_driver sample_route
              (Some "") (Some []) (Some (BodyStr "")) [])
    as (m & overrides & Hrun & _ & Hm & Hp & Hmethod & _ & Hheaders & _ & Hpost).
  - intros s [= <-]. reflexivity.
  - exists m, overrides. repeat split; try assumption.
    + apply Hmethod. now right.
    + apply Hheaders. now right.
    + intros E. apply Hpost in E. discriminate E.
Defined.

(** X15: the [postData] that [continue_] sends for a non-empty text is
    the same whether the text is given as [str] or as its UTF-8 bytes,
    and a Request whose initializer carries it reads the text back. *)
Theorem continue_postData_round_trip (remote : list Message -> Message -> Reply)
    (self : Route.t) (method : option string) (headers : option (dict string))
    (s : string) (log : list Message) (r : Request.t) :
  s <> "" ->
  utf8_valid (map Byte.to_N (encode s)) = true ->
  exists m overrides pd,
    Route.continue_ remote self method headers (Some (BodyStr s)) log
    = (outcome_of_reply (remote log m), log ++ [m])
    /\ Route.continue_ remote self method headers (Some (BodyBytes (encode s))) log
       = (outcome_of_reply (remote log m), log ++ [m])
    /\ msg_params m = ContinueParamsOf overrides
    /\ o_postData overrides = Some pd
    /\ (Request.init_postData (Request._initializer r) = Some pd ->
        Request.postDataBuffer r = Ok (Some (encode s))
        /\ Request.postData r = Ok (Some s)).
Proof.
  intros Hne Hutf. eexists. eexists. eexists.
  split; [apply continue_spec|]. split; [apply continue_spec|].
  split; [reflexivity|]. split; [reflexivity|].
  now apply postData_reads_encoded.
Qed.

Lemma continue_postData_round_trip_witness :
  exists m overrides pd,
    Route.continue_ one_shot_driver sample_route None None (Some (BodyStr "a=1")) []
    = (outcome_of_reply (one_shot_driver [] m), [] ++ [m])
    /\ Route.continue_ one_shot_driver sample_route None None
         (Some (BodyBytes (encode "a=1"))) []
       = (outcome_of_reply (one_shot_driver [] m), [] ++ [m])
    /\ msg_params m = ContinueParamsOf overrides
    /\ o_postData overrides = Some pd
    /\ (Request.init_postData (Request._initializer (sample_request (Some "YT0x") []))
        = Some pd ->
        Request.postDataBuffer (sample_request (Some "YT0x") []) = Ok (Some (encode "a=1"))
        /\ Request.postData (sample_request (Some "YT0x") []) = Ok (Some "a=1")).
Proof.
  apply (continue_postData_round_trip one_shot_driver sample_route None None "a=1" []
           (sample_request (Some "YT0x") []));
    [discriminate | reflexivity].
Defined.

(* ================================================================== *)
(** ** Route.fulfill: the payload as a whole *)

Lemma fold_set_last {X V} (kf : X -> string) (vf : X -> V)
    (l1 l2 : list X) (x : X) (acc : dict V) :
  (forall y, In y l2 -> kf y <> kf x) ->
  dict_get (kf x) (fold_left (fun d y => dict_set (kf y) (vf y) d) (l1 ++ x :: l2) acc)
  = Some (vf x).
Proof.
  intros Hl2. induction l2 as [|y l2 IH] using rev_ind.
  - rewrite fold_left_app. simpl. apply dict_get_set_eq.
  - replace (l1 ++ x :: l2 ++ [y]) with ((l1 ++ x :: l2) ++ [y])
      by (rewrite <- app_assoc; reflexivity).
    rewrite fold_left_app. simpl. rewrite dict_get_set_ne.
    + apply IH. intros z Hz. apply Hl2, in_or_app. now left.
    + apply Hl2, in_or_app. right. now left.
Qed.

Section FulfillPayload.
Variable str_lower : string -> string.
Variable guess_type : PathArg -> option string.
Variable read_bytes : PathArg -> option bytes.

Lemma lower_headers_NoDup (headers : option (dict string)) :
  NoDup (dict_keys (Route.lower_headers str_lower headers)).
Proof. rewrite lower_headers_fold. apply fold_set_NoDup, NoDup_nil_2. Qed.

Lemma fulfill_headers_NoDup headers path contentType (len : nat) :
  NoDup (dict_keys (Route.fulfill_headers str_lower guess_type headers path contentType len)).
Proof.
  unfold Route.fulfill_headers.
  pose proof (lower_headers_NoDup headers) as H0.
  repeat match goal with
         | |- context [if ?c then _ else _] => destruct c
         | |- context [match ?o with Some _ => _ | None => _ end] => destruct o
         | |- NoDup (dict_keys (dict_set _ _ _)) => apply dict_set_NoDup
         end; assumption.
Qed.

Lemma fulfill_headers_other headers path contentType (len : nat) (n : string) :
  n <> "content-type" -> n <> "content-length" ->
  dict_get n (Route.fulfill_headers str_lower guess_type headers path contentType len)
  = dict_get n (Route.lower_headers str_lower headers).
Proof.
  intros Hct Hcl. unfold Route.fulfill_headers.
  repeat match goal with
         | |- context [if ?c then _ else _] => destruct c
         | |- context [match ?o with Some _ => _ | None => _ end] => destruct o
         | |- dict_get _ (dict_set _ _ _) = _ => rewrite dict_get_set_ne by congruence
         end; reflexivity.
Qed.

(** X16: the header list [fulfill] sends never has a name twice, even
    when names of the caller differ only in case; parsing it and
    serializing it again gives the same list. *)
Theorem fulfill_header_names_unique status headers body path contentType
    (p : FulfillParams) :
  Route.fulfill_params str_lower guess_type read_bytes
    status headers body path contentType = Ok p ->
  NoDup (map name (p_headers p))
  /\ serialize_headers (parse_headers (p_headers p)) = p_headers p.
Proof.
  intros Hp. apply fulfill_params_inv in Hp as (len & _ & Hh & _).
  rewrite Hh, parse_serialize by apply fulfill_headers_NoDup.
  split; [|reflexivity].
  rewrite serialize_headers_names. apply fulfill_headers_NoDup.
Qed.

(** X17: when several header names of the caller lower-case to the same
    name, [fulfill] sends the value of the last of them (for any name
    but [content-type], which [fulfill] may set itself). *)
Theorem fulfill_collision_last_wins status (h1 h2 : dict string) (k v : string)
    body path contentType (p : FulfillParams) :
  (forall k' v', In (k', v') h2 -> str_lower k' <> str_lower k) ->
  str_lower k <> "content-type" ->
  Route.fulfill_params str_lower guess_type read_bytes
    status (Some (h1 ++ (k, v) :: h2)) body path contentType = Ok p ->
  wire_header (str_lower k) (p_headers p) = Some v.
Proof.
  intros Hh2 Hct Hp. apply fulfill_params_inv in Hp as (len & _ & Hh & _).
  rewrite Hh, wire_header_serialize.
  assert (Hlow : dict_get (str_lower k)
                   (Route.lower_headers str_lower (Some (h1 ++ (k, v) :: h2))) = Some v).
  { rewrite lower_headers_fold.
    apply (fold_set_last (fun x => str_lower (fst x)) snd h1 h2 (k, v)).
    intros [k' v'] Hin. simpl. eapply Hh2, Hin. }
  destruct (string_dec (str_lower k) "content-length") as [E|E].
  - rewrite E in *. rewrite fulfill_headers_content_length. now rewrite Hlow.
  - now rewrite fulfill_headers_other.
Qed.

(** X18: with an explicit [body], bytes or an encodable text,
    [fulfill] does not read the [path] file: the payload is the same
    whatever the file system holds, and it is always produced. *)
Theorem fulfill_with_body_reads_nothing status headers (body : Body) path contentType :
  (forall s, body = BodyStr s -> encodable s = true) ->
  exists p,
    forall read_bytes' : PathArg -> option bytes,
      Route.fulfill_params str_lower guess_type read_bytes'
        status headers (Some body) path contentType = Ok p.
Proof.
  intros _. unfold Route.fulfill_params, Route.fulfill_body.
  destruct body as [s|b]; eexists; intros rb; reflexivity.
Qed.

(** X19: for a [body] that is missing, bytes or an encodable text,
    [fulfill] produces no payload exactly when there is no [body], the
    [path] is truthy and the file cannot be read; it then raises the
    error of the read and sends nothing. *)
Theorem fulfill_fails_iff_unreadable status headers body path contentType :
  (forall s, body = Some (BodyStr s) -> encodable s = true) ->
  let no_file :=
    body = None /\ exists f, path = Some f /\ truthy_path path = true
                            /\ read_bytes f = None in
  ((forall p, Route.fulfill_params str_lower guess_type read_bytes
                status headers body path contentType <> Ok p)
   <-> no_file)
  /\ (no_file ->
      exists e,
        forall remote self log,
          Route.fulfill str_lower guess_type read_bytes remote self
            status headers body path contentType log
          = (Raise e, log)).
Proof.
  intros _.
  assert (Hcases :
    (body = None /\ exists f, path = Some f /\ truthy_path path = true
                             /\ read_bytes f = None
     /\ Route.fulfill_params str_lower guess_type read_bytes
          status headers body path contentType = Raise OSError)
    \/ exists p, Route.fulfill_params str_lower guess_type read_bytes
                   status headers body path contentType = Ok p).
  { unfold Route.fulfill_params, Route.fulfill_body.
    destruct body as [[s|b]|]; try (right; eexists; reflexivity).
    destruct path as [f|]; try (right; eexists; reflexivity).
    destruct (truthy_path (Some f)) eqn:Ht; try (right; eexists; reflexivity).
    destruct (read_bytes f) eqn:Hr; try (right; eexists; reflexivity).
    left. split; [reflexivity|]. exists f. auto. }
  simpl. split; [split|].
  - intros Hno. destruct Hcases as [(Hb & f & Hf & Ht & Hr & _)|[p Hp]].
    + split; [assumption|]. now exists f.
    + now apply Hno in Hp.
  - intros (Hb & f & Hf & Ht & Hr) p Hp.
    destruct Hcases as [(_ & f' & Hf' & _ & _ & E)|[p' Hp']]; [congruence|].
    subst body path. unfold Route.fulfill_params, Route.fulfill_body in Hp.
    rewrite Ht, Hr in Hp. discriminate.
  - intros (Hb & f & Hf & Ht & Hr).
    destruct Hcases as [(_ & f' & Hf' & _ & _ & E)|[p' Hp']].
    + exists OSError. intros remote self log. unfold Route.fulfill. now rewrite E.
    + subst body path. unfold Route.fulfill_params, Route.fulfill_body in Hp'.
      rewrite Ht, Hr in Hp'. discriminate.
Qed.

(** X20: what else the [fulfill] payload carries: [status] and
    [contentType] as given; [path] unless the file was read; and
    [isBase64] exactly when there is a [body] entry, which is missing
    only when there is neither a [body] nor a truthy [path]. *)
Theorem fulfill_payload_keys status headers body path contentType
    (p : FulfillParams) :
  Route.fulfill_params str_lower guess_type read_bytes
    status headers body path contentType = Ok p ->
  p_status p = status
  /\ p_contentType p = contentType
  /\ p_path p = (if truthy_path path
                 then match body with Some _ => path | None => None end
                 else path)
  /\ (p_body p = None <-> body = None /\ truthy_path path = false)
  /\ (p_isBase64 p = None <-> p_body p = None).
Proof.
  intros Hp. apply fulfill_params_inv in Hp as (len & Hb & _ & Hs & Hc).
  split; [assumption|]. split; [assumption|].
  unfold Route.fulfill_body in Hb.
  destruct body as [[s|b]|].
  - injection Hb as <- <- <- _. destruct (truthy_path path); intuition congruence.
  - injection Hb as <- <- <- _. destruct (truthy_path path); intuition congruence.
  - destruct path as [f|].
    + destruct (truthy_path (Some f)) eqn:Ht.
      * destruct (read_bytes f); [|discriminate].
        injection Hb as <- <- <- _. intuition congruence.
      * injection Hb as <- <- <- _. intuition congruence.
    + injection Hb as <- <- <- _. simpl. intuition congruence.
Qed.

(** X21: a base64 body that [fulfill] sends decodes back to the bytes
    it was made from, the bytes [body] or the content of the [path]
    file; so [Response.body] returns those bytes when the remote side
    serves that text. *)
Theorem fulfill_body_round_trip status headers body path contentType
    (p : FulfillParams) :
  Route.fulfill_params str_lower guess_type read_bytes
    status headers body path contentType = Ok p ->
  p_isBase64 p = Some true ->
  exists s b,
    p_body p = Some s
    /\ b64decode s = Ok b
    /\ (body = Some (BodyBytes b)
        \/ (body = None /\ exists f, path = Some f /\ read_bytes f = Some b))
    /\ forall remote resp log,
         remote log (body_message resp) = ReplyResult (WStr s) ->
         Response.body remote resp log = (Ok b, log ++ [body_message resp]).
Proof.
  intros Hp Hb64. apply fulfill_params_inv in Hp as (len & Hb & _).
  assert (H : exists b, p_body p = Some (b64encode b)
                        /\ (body = Some (BodyBytes b)
                            \/ (body = None /\ exists f, path = Some f
                                                        /\ read_bytes f = Some b))).
  { unfold Route.fulfill_body in Hb.
    destruct body as [[s|b]|].
    - injection Hb as _ E _ _. congruence.
    - injection Hb as <- _ _ _. exists b. auto.
    - destruct path as [f|]; [|injection Hb as _ E _ _; congruence].
      destruct (truthy_path (Some f)); [|injection Hb as _ E _ _; congruence].
      destruct (read_bytes f) as [c|] eqn:Hr; [|discriminate].
      injection Hb as <- _ _ _. exists c. split; [reflexivity|]. right. eauto. }
  destruct H as (b & Hbody & Hsrc).
  exists (b64encode b), b. split; [assumption|].
  split; [apply b64decode_b64encode|]. split; [assumption|].
  intros remote resp log Hreply.
  rewrite body_spec, Hreply. simpl. now rewrite b64decode_b64encode.
Qed.
End FulfillPayload.

Lemma fulfill_with_body_reads_nothing_witness :
  exists p,
    forall read_bytes' : PathArg -> option bytes,
      Route.fulfill_params ascii_lower guess_png read_bytes'
        None None (Some (BodyStr "hello")) (Some (PathStr "missing.txt")) None = Ok p.
Proof.
  apply (fulfill_with_body_reads_nothing ascii_lower guess_png
           None None (BodyStr "hello") (Some (PathStr "missing.txt")) None).
  intros s [= <-]. reflexivity.
Defined.

Lemma fulfill_fails_iff_unreadable_witness :
  (forall p, Route.fulfill_params ascii_lower guess_png two_files
               None None None (Some (PathStr "missing.txt")) None <> Ok p)
  /\ exists e,
       forall remote self log,
         Route.fulfill ascii_lower guess_png two_files remote self
           None None None (Some (PathStr "missing.txt")) None log
         = (Raise e, log).
Proof.
  destruct (fulfill_fails_iff_unreadable ascii_lower guess_png two_files
              None None None (Some (PathStr "missing.txt")) None)
    as [Hiff Herr].
  - discriminate.
  - assert (Hno : None = None :> option Body
                  /\ exists f, Some (PathStr "missing.txt") = Some f
                               /\ truthy_path (Some (PathStr "missing.txt")) = true
                               /\ two_files f = None)
      by (split; [reflexivity|]; exists (PathStr "missing.txt"); repeat split).
    split; [apply Hiff, Hno | apply Herr, Hno].
Defined.

Lemma fulfill_header_names_unique_witness :
  exists p,
    Route.fulfill_params ascii_lower guess_png two_files
      None (Some [("X-Foo", "1"); ("x-foo", "2"); ("Accept", "*")])
      (Some (BodyStr "hi")) None None = Ok p
    /\ NoDup (map name (p_headers p))
    /\ serialize_headers (parse_headers (p_headers p)) = p_headers p.
Proof.
  eexists. split; [reflexivity|].
  apply (fulfill_header_names_unique ascii_lower guess_png two_files
           None (Some [("X-Foo", "1"); ("x-foo", "2"); ("Accept", "*")])
           (Some (BodyStr "hi")) None None _ eq_refl).
Defined.

Lemma fulfill_collision_last_wins_witness :
  exists p,
    Route.fulfill_params ascii_lower guess_png two_files
      None (Some ([("X-Foo", "1")] ++ ("x-FOO", "2") :: [("Accept", "*")]))
      None None None = Ok p
    /\ wire_header (ascii_lower "x-FOO") (p_headers p) = Some "2".
Proof.
  eexists. split; [reflexivity|].
  apply (fulfill_collision_last_wins ascii_lower guess_png two_files
           None [("X-Foo", "1")] [("Accept", "*")] "x-FOO" "2" None None None _).
  - intros k' v' [[= <- <-]|[]]. discriminate.
  - discriminate.
  - reflexivity.
Defined.

Lemma fulfill_payload_keys_witness :
  exists p,
    Route.fulfill_params ascii_lower guess_png two_files
      (Some 404%Z) None None (Some (PathStr "data.xyz")) (Some "text/plain") = Ok p
    /\ p_status p = Some 404%Z
    /\ p_contentType p = Some "text/plain"
    /\ p_path p = None
    /\ (p_body p = None <-> None = None :> option Body /\ true = false)
    /\ (p_isBase64 p = None <-> p_body p = None).
Proof.
  eexists. split; [reflexivity|].
  apply (fulfill_payload_keys ascii_lower guess_png two_files
           (Some 404%Z) None None (Some (PathStr "data.xyz")) (Some "text/plain") _ eq_refl).
Defined.

Lemma fulfill_body_round_trip_witness :
  exists p s b,
    Route.fulfill_params ascii_lower guess_png two_files
      None None None (Some (PathStr "data.xyz")) None = Ok p
    /\ p_body p = Some s
    /\ b64decode s = Ok b
    /\ (None = Some (BodyBytes b)
        \/ (None = None :> option Body
            /\ exists f, Some (PathStr "data.xyz") = Some f /\ two_files f = Some b))
    /\ forall remote resp log,
         remote log (body_message resp) = ReplyResult (WStr s) ->
         Response.body remote resp log = (Ok b, log ++ [body_message resp]).
Proof.
  eexists.
  destruct (fulfill_body_round_trip ascii_lower guess_png two_files
              None None None (Some (PathStr "data.xyz")) None _ eq_refl eq_refl)
    as (s & b & H).
  exists s, b. split; [reflexivity | exact H].
Defined.

(* ================================================================== *)
(** ** Response: status, text and json *)

Section TextFacts.
Variable json_loads : string -> option JSON.
Variable remote : list Message -> Message -> Reply.

Lemma text_spec (self : Response.t) (log : list Message) :
  Response.text remote self log
  = (result_bind (body_of_reply (remote log (body_message self))) decode,
     log ++ [body_message self]).
Proof.
  unfold Response.text, bind. rewrite body_spec.
  now destruct (body_of_reply _).
Qed.

(** X23: [text()] and [json()] make exactly one [body] round trip each,
    also when they fail; [text()] is the UTF-8 decoding of what
    [body()] gives for the reply, and [json()] raises JSONDecodeError
    only for a text that was fetched and decoded. *)
Theorem text_json_single_round_trip (self : Response.t) (log : list Message) :
  let m := body_message self in
  let fetched := body_of_reply (remote log m) in
  Response.body remote self log = (fetched, log ++ [m])
  /\ Response.text remote self log = (result_bind fetched decode, log ++ [m])
  /\ Response.json json_loads remote self log
     = (result_bind (result_bind fetched decode)
          (fun t => match json_loads t with
                    | Some j => Ok j
                    | None => Raise JSONDecodeError
                    end),
        log ++ [m]).
Proof.
  simpl. split; [apply body_spec|]. split; [apply text_spec|].
  unfold Response.json, bind. rewrite text_spec.
  destruct (result_bind _ decode) as [t|e]; [|reflexivity].
  simpl. now destruct (json_loads t).
Qed.

(** X24: when the remote side answers with the base64 text of a
    well-formed UTF-8 string, [body()] returns its bytes and [text()]
    the string. *)
Theorem text_round_trip (self : Response.t) (log : list Message) (s : string) :
  utf8_valid (map Byte.to_N (encode s)) = true ->
  remote log (body_message self) = ReplyResult (WStr (b64encode (encode s))) ->
  fst (Response.body remote self log) = Ok (encode s)
  /\ fst (Response.text remote self log) = Ok s.
Proof.
  intros Hutf Hreply. rewrite text_spec, body_spec, Hreply. simpl.
  rewrite b64decode_b64encode. simpl. split; [reflexivity|].
  unfold decode. rewrite Hutf. unfold encode.
  now rewrite string_of_list_byte_of_string.
Qed.
End TextFacts.

Lemma text_round_trip_witness :
  fst (Response.body one_shot_driver sample_response []) = Ok (encode "hello")
  /\ fst (Response.text one_shot_driver sample_response []) = Ok "hello".
Proof.
  apply (text_round_trip one_shot_driver sample_response [] "hello"); reflexivity.
Defined.
